(** * Public contact scraper: the link-discovery and contact-extraction pipeline

    A shallow embedding of [streamlit_scraper.py]: the query builder, the phone
    validator, the contact extractor, the link collector and the per-link
    orchestrator, with the properties of its specification stated over them.

    Python [str] values are lists of characters ([text]); a character is a code
    point below 256 ([ascii]), and the character classes of [re] are the ones
    CPython uses on that range. *)

From Stdlib Require Import Ascii String Bool Arith ZArith Lia QArith List.
Import ListNotations.

Local Open Scope list_scope.
Local Open Scope nat_scope.

(** ** Text *)

Definition text := list ascii.

(** A literal of the source. *)
Definition txt (s : string) : text := list_ascii_of_string s.

Definition text_dec : forall a b : text, {a = b} + {a <> b} :=
  list_eq_dec ascii_dec.

Definition text_eqb (a b : text) : bool :=
  if text_dec a b then true else false.

(** [str.startswith] *)
Fixpoint startswith (p s : text) : bool :=
  match p, s with
  | [], _ => true
  | a :: p', b :: s' => Ascii.eqb a b && startswith p' s'
  | _ :: _, [] => false
  end.

(** [needle in hay] on strings: some suffix of [hay] starts with [needle]. *)
Fixpoint str_in (needle hay : text) : bool :=
  startswith needle hay ||
  match hay with
  | [] => false
  | _ :: hay' => str_in needle hay'
  end.

(** [sep.join(parts)] *)
Fixpoint join (sep : text) (parts : list text) : text :=
  match parts with
  | [] => []
  | [p] => p
  | p :: ps => p ++ sep ++ join sep ps
  end.

(** [x in xs] on a list of strings. *)
Definition mem (x : text) (xs : list text) : bool :=
  existsb (text_eqb x) xs.

(** ** Outcomes of a call: a value or a raised exception *)

(** Python's hierarchy has [Exception] below [BaseException]; [except Exception]
    catches the first kind only, a bare [except:] both. *)
Inductive exn : Type :=
| Exception (name : string)
| BaseException (name : string).

Definition is_Exception (e : exn) : bool :=
  match e with Exception _ => true | BaseException _ => false end.

Inductive outcome (A : Type) : Type :=
| Returned (a : A)
| Raised (e : exn).
Arguments Returned {A} a.
Arguments Raised {A} e.

Definition obind {A B} (o : outcome A) (f : A -> outcome B) : outcome B :=
  match o with
  | Returned a => f a
  | Raised e => Raised e
  end.

(** [try: body / except: handler] with a bare except clause. *)
Definition try_except {A} (body : outcome A) (handler : exn -> outcome A) : outcome A :=
  match body with
  | Returned a => Returned a
  | Raised e => handler e
  end.

Declare Scope outcome_scope.
Delimit Scope outcome_scope with outcome.
Notation "x <- c ;; k" := (obind c (fun x => k))
  (at level 61, c at next level, right associativity) : outcome_scope.
Notation "c ;; k" := (obind c (fun _ => k))
  (at level 61, right associativity) : outcome_scope.

(** ** Character classes of [re] (str patterns, code points below 256) *)

Definition code (c : ascii) : nat := nat_of_ascii c.

Definition in_range (lo hi : ascii) (c : ascii) : bool :=
  (code lo <=? code c) && (code c <=? code hi).

Definition is_upper := in_range "A" "Z".
Definition is_lower := in_range "a" "z".
Definition is_alpha (c : ascii) : bool := is_upper c || is_lower c.   (* [A-Za-z] *)
Definition is_09 := in_range "0" "9".                                 (* 0-9 *)
Definition is_6_9 := in_range "6" "9".                                (* [6-9] *)

(** [\d]: Unicode decimal digits; below 256 these are 0-9 only. *)
Definition is_digit (c : ascii) : bool := is_09 c.

(** [\s]: [str.isspace]; below 256: TAB LF VT FF CR, FS GS RS US, space,
    NEL (0x85) and NBSP (0xA0). *)
Definition is_space (c : ascii) : bool :=
  let n := code c in
  ((9 <=? n) && (n <=? 13)) || ((28 <=? n) && (n <=? 32)) || (n =? 133) || (n =? 160).

(** [\w]: alphanumeric ([str.isalnum]) or underscore.  Below 256 the
    alphanumerics beyond ASCII are U+00AA, U+00B2, U+00B3, U+00B5, U+00B9,
    U+00BA, U+00BC-U+00BE, U+00C0-U+00D6, U+00D8-U+00F6 and U+00F8-U+00FF. *)
Definition is_word (c : ascii) : bool :=
  let n := code c in
  is_alpha c || is_09 c || Ascii.eqb c "_" ||
  (n =? 170) || (n =? 178) || (n =? 179) || (n =? 181) || (n =? 185) || (n =? 186) ||
  ((188 <=? n) && (n <=? 190)) ||
  ((192 <=? n) && (n <=? 214)) || ((216 <=? n) && (n <=? 246)) || (248 <=? n).

(** [[A-Za-z0-9._%+-]] *)
Definition is_local (c : ascii) : bool :=
  is_alpha c || is_09 c || Ascii.eqb c "." || Ascii.eqb c "_" || Ascii.eqb c "%" ||
  Ascii.eqb c "+" || Ascii.eqb c "-".

(** [[A-Za-z0-9.-]] *)
Definition is_domain (c : ascii) : bool :=
  is_alpha c || is_09 c || Ascii.eqb c "." || Ascii.eqb c "-".

(** [[-\s]] *)
Definition is_dash_or_space (c : ascii) : bool := Ascii.eqb c "-" || is_space c.

(** ** A backtracking matcher for the constructs the two patterns use *)

Inductive regex : Type :=
| Lit (c : ascii)                                       (* a literal character *)
| Class (p : ascii -> bool)                             (* a character class *)
| Cat (r1 r2 : regex)                                   (* r1 r2 *)
| Maybe (r : regex)                                     (* (?:r)?  greedy *)
| Repeat (p : ascii -> bool) (lo : nat) (hi : option nat) (* class{lo,hi}, greedy; + is {1,} *)
| Boundary.                                             (* \b *)

(** The character before the position ([None] at the start of the string) and
    the remaining input. *)
Definition cont := option ascii -> text -> option text.

Definition word_opt (c : option ascii) : bool :=
  match c with Some x => is_word x | None => false end.

(** [\b]: exactly one side of the position is a word character; the ends of the
    string count as non-word. *)
Definition at_boundary (prev : option ascii) (s : text) : bool :=
  xorb (word_opt prev) (word_opt (hd_error s)).

Definition can_take (hi : option nat) : bool :=
  match hi with Some 0 => false | _ => true end.

(** Greedy repetition of a class: take one more character while allowed, and on
    failure of what follows give characters back one at a time. *)
Fixpoint rep (p : ascii -> bool) (lo : nat) (hi : option nat) (k : cont)
    (prev : option ascii) (s : text) {struct s} : option text :=
  let stop := match lo with 0 => k prev s | S _ => None end in
  match s with
  | c :: s' =>
      if p c && can_take hi then
        match rep p (pred lo) (option_map pred hi) k (Some c) s' with
        | Some r => Some r
        | None => stop
        end
      else stop
  | [] => stop
  end.

(** [run r k prev s]: match [r] at the head of [s], then continue with [k]; the
    result is the input left after the whole match. Alternatives are tried in
    the order [re] tries them. *)
Fixpoint run (r : regex) (k : cont) (prev : option ascii) (s : text) : option text :=
  match r with
  | Lit c =>
      match s with
      | x :: s' => if Ascii.eqb x c then k (Some x) s' else None
      | [] => None
      end
  | Class p =>
      match s with
      | x :: s' => if p x then k (Some x) s' else None
      | [] => None
      end
  | Cat r1 r2 => run r1 (run r2 k) prev s
  | Maybe r1 =>
      match run r1 k prev s with
      | Some res => Some res
      | None => k prev s
      end
  | Repeat p lo hi => rep p lo hi k prev s
  | Boundary => if at_boundary prev s then k prev s else None
  end.

(** [pattern.match] at one position: the length of the match found there. *)
Definition match_at (r : regex) (prev : option ascii) (s : text) : option nat :=
  match run r (fun _ rest => Some rest) prev s with
  | Some rest => Some (length s - length rest)
  | None => None
  end.

(** The scan of [re.findall]: leftmost matches, none overlapping; after a match
    the search resumes where the match ended. [skip] counts the characters of
    the last match still to pass over. Both patterns of the program need at
    least one character (lemmas [email_match_nonempty], [phone_match_nonempty]),
    so the rule of [re] for empty matches is never exercised and an empty match
    is passed over here. *)
Fixpoint scan (r : regex) (prev : option ascii) (s : text) (skip : nat) : list text :=
  match s with
  | [] => []
  | c :: s' =>
      match skip with
      | S n => scan r (Some c) s' n
      | 0 =>
          match match_at r prev s with
          | Some (S n) => firstn (S n) s :: scan r (Some c) s' n
          | _ => scan r (Some c) s' 0
          end
      end
  end.

Definition findall (r : regex) (s : text) : list text := scan r None s 0.

(** [re.sub] of [\D] by the empty string: drop every character that is not a
    digit. *)
Definition strip_non_digits (s : text) : text := filter is_digit s.

(** ** The two patterns *)

(** [[A-Za-z0-9._%+-]+@[A-Za-z0-9.-]+\.[A-Za-z]{2,}] *)
Definition EMAIL_RE : regex :=
  Cat (Repeat is_local 1 None)
 (Cat (Lit "@")
 (Cat (Repeat is_domain 1 None)
 (Cat (Lit ".")
      (Repeat is_alpha 2 None)))).

(** [\b(?:\+91[-\s]?)?[6-9]\d{9}\b] *)
Definition PHONE_RE : regex :=
  Cat Boundary
 (Cat (Maybe (Cat (Lit "+") (Cat (Lit "9") (Cat (Lit "1") (Maybe (Class is_dash_or_space))))))
 (Cat (Class is_6_9)
 (Cat (Repeat is_digit 9 (Some 9))
      Boundary))).


(** ** Collaborators outside the repository *)

(** The [phonenumbers] package, as far as the validator calls it. Each call may
    raise. [region_code_for_number] answers [None] when it finds no region. *)
Record PhoneLib : Type := {
  PhoneNumber : Type;
  parse : text -> text -> outcome PhoneNumber;
  is_valid_number : PhoneNumber -> outcome bool;
  region_code_for_number : PhoneNumber -> outcome (option text)
}.

(** Iteration over [set(xs)]: every element of [xs] once, in an order the
    interpreter chooses. *)
Record PySet : Type := {
  set_iter : list text -> list text;
  set_iter_NoDup : forall xs, NoDup (set_iter xs);
  set_iter_In : forall xs x, In x (set_iter xs) <-> In x xs
}.

(** ** Configuration *)

Definition dq : text := ["034"%char].

Definition INDIAN_KEYWORDS : list text :=
  map txt ["India"; "Mumbai"; "Delhi"; "Bangalore"; "Hyderabad"; "Chennai";
           "Kolkata"; "Ahmedabad"; "Pune"; "Jaipur"; "Surat"; "Lucknow"]%string.

(** ** Query builder *)

Definition contact_hint : text :=
  txt "(intext:" ++ dq ++ txt "email" ++ dq ++
  txt " OR intext:" ++ dq ++ txt "@" ++ dq ++
  txt " OR intext:" ++ dq ++ txt "gmail.com" ++ dq ++
  txt " OR intext:" ++ dq ++ txt "yahoo.com" ++ dq ++
  txt " OR intext:" ++ dq ++ txt "outlook.com" ++ dq ++
  txt " OR intext:" ++ dq ++ txt "contact" ++ dq ++ txt ")".

Definition phone_hint : text :=
  txt "(intext:" ++ dq ++ txt "phone" ++ dq ++
  txt " OR intext:" ++ dq ++ txt "mobile" ++ dq ++
  txt " OR intext:" ++ dq ++ txt "WhatsApp" ++ dq ++
  txt " OR intext:" ++ dq ++ txt "call" ++ dq ++ txt ")".

Definition build_query (keyword : text) (selected_domains : list text) : text :=
  let india_hint := join (txt " OR ") (map (fun k => dq ++ k ++ dq) INDIAN_KEYWORDS) in
  let domains := join (txt " OR ") (map (fun d => txt "site:" ++ d) selected_domains) in
  txt "(" ++ domains ++ txt ") " ++ dq ++ keyword ++ dq ++
  txt " (" ++ india_hint ++ txt ") " ++ contact_hint ++ txt " " ++ phone_hint.

(** ** Phone validator and contact extractor *)

Section Extractor.

Variable phonenumbers : PhoneLib.
Variable pyset : PySet.

Local Open Scope outcome_scope.

Definition validate_indian_number (num_str : text) : outcome bool :=
  try_except
    (num <- parse phonenumbers num_str (txt "IN") ;;
     valid <- is_valid_number phonenumbers num ;;
     if valid
     then region <- region_code_for_number phonenumbers num ;;
          Returned (match region with
                    | Some r => text_eqb r (txt "IN")
                    | None => false
                    end)
     else Returned false)
    (fun _ => Returned false).

(** The candidate built from one raw match. *)
Definition candidate_of (ph : text) : text :=
  let digits := strip_non_digits ph in
  let digits :=
    if negb (startswith (txt "91") digits) && (length digits =? 10)
    then txt "91" ++ digits
    else digits in
  txt "+" ++ digits.

(** The loop [for ph in set(raw_phones)], [clean_phones] being the list built
    so far. *)
Fixpoint clean_loop (items : list text) (clean_phones : list text)
  : outcome (list text) :=
  match items with
  | [] => Returned clean_phones
  | ph :: rest =>
      let candidate := candidate_of ph in
      ok <- validate_indian_number candidate ;;
      clean_loop rest (if ok then clean_phones ++ [candidate] else clean_phones)
  end.

Definition extract_contacts_from_html (html : text) : outcome (list text * list text) :=
  let emails := set_iter pyset (findall EMAIL_RE html) in
  let raw_phones := findall PHONE_RE html in
  clean_phones <- clean_loop (set_iter pyset raw_phones) [] ;;
  Returned (emails, clean_phones).

End Extractor.

(** ** The browser collaborator

    One run of the program awaits the browser in a fixed pattern; a [browser]
    gives, for each of these calls, what the call does in the run: return or
    raise. The results pages are numbered in the order the next-page control
    leads through them, the visits by the position of the link. *)

(** One page of search results. An anchor is what the two calls on a result
    element ([evaluate_handle], then [get_attribute("href")]) give: the
    attribute, [None] when it is missing, or an exception. *)
Record results_page : Type := {
  anchors : outcome (list (outcome (option text)));  (* query_selector_all("a h3") *)
  next_btn : outcome bool;                           (* query_selector("a#pnnext") found one *)
  next_click : outcome unit;                         (* next_btn.click() *)
  next_wait : outcome unit                           (* page.wait_for_timeout(2000) *)
}.

(** The calls made on the page context of one link. *)
Record visit : Type := {
  v_new_page : outcome unit;
  v_goto : outcome unit;
  v_wait : outcome unit;
  v_content : outcome text;
  v_close : outcome unit
}.

Record browser : Type := {
  launch : outcome unit;
  search_new_page : outcome unit;
  search_goto : text -> outcome unit;
  search_content : outcome text;
  search_page_url : text;
  agree_click : outcome unit;
  agree_wait : outcome unit;
  results : nat -> results_page;
  visits : nat -> text -> visit;
  browser_close : outcome unit
}.

(** ** Link collector *)

Section Collector.

Variable selected_domains : list text.
Variable max_results : Z.

Local Open Scope outcome_scope.

(** [len(links) >= max_results] *)
Definition reached (links : list text) : bool :=
  (max_results <=? Z.of_nat (length links))%Z.

(** [href and any(d in href for d in selected_domains) and href not in links],
    for an attribute that is present; the empty string is falsy. *)
Definition wanted (href : text) (links : list text) : bool :=
  match href with
  | [] => false
  | _ => existsb (fun d => str_in d href) selected_domains && negb (mem href links)
  end.

(** The inner loop [for r in results], with its [break]. *)
Fixpoint collect_page (rs : list (outcome (option text))) (links : list text)
  : outcome (list text) :=
  match rs with
  | [] => Returned links
  | r :: rest =>
      href <- r ;;
      match href with
      | Some h =>
          if wanted h links then
            let links := links ++ [h] in
            if reached links then Returned links else collect_page rest links
          else collect_page rest links
      | None => collect_page rest links
      end
  end.

(** The loop [while len(links) < max_results], on results page [n]; [None] when
    [fuel] iterations did not end it. *)
Fixpoint collect_links (fuel : nat) (pages : nat -> results_page) (n : nat)
    (links : list text) : option (outcome (list text)) :=
  match fuel with
  | 0 => None
  | S fuel' =>
      if reached links then Some (Returned links) else
      match anchors (pages n) with
      | Raised e => Some (Raised e)
      | Returned rs =>
      match collect_page rs links with
      | Raised e => Some (Raised e)
      | Returned links =>
      match next_btn (pages n) with
      | Raised e => Some (Raised e)
      | Returned found =>
          if negb found || reached links then Some (Returned links) else
          match (next_click (pages n) ;; next_wait (pages n)) with
          | Raised e => Some (Raised e)
          | Returned _ => collect_links fuel' pages (S n) links
          end
      end end end
  end.

End Collector.

(** ** Pipeline orchestrator *)

(** One output record; [emails] and [phones] are the comma-joined strings. *)
Record row : Type := {
  keyword : text;
  url : text;
  domain : text;
  emails : text;
  phones : text
}.

(** What the run does that an observer can see, in order. *)
Inductive event : Type :=
| PageOpened (i : nat)     (* browser.new_page() returned for link i *)
| PageClosed (i : nat)     (* new_page.close() returned for link i *)
| Reported (q : Q)         (* progress.progress(q) was called *)
| Printed (link : text).   (* the diagnostic of the except clause *)

(** The list [rows] and the events so far. *)
Record world : Type := {
  rows : list row;
  log : list event
}.

(** A step of the orchestrator: it changes the world and returns or raises. *)
Definition M (A : Type) : Type := world -> outcome A * world.

Definition ret {A} (a : A) : M A := fun w => (Returned a, w).

Definition bind {A B} (m : M A) (f : A -> M B) : M B :=
  fun w =>
    match m w with
    | (Returned a, w') => f a w'
    | (Raised e, w') => (Raised e, w')
    end.

(** An awaited call of a collaborator. *)
Definition call {A} (o : outcome A) : M A := fun w => (o, w).

Definition emit (e : event) : M unit :=
  fun w => (Returned tt, {| rows := rows w; log := log w ++ [e] |}).

(** [rows.append(r)] *)
Definition append_row (r : row) : M unit :=
  fun w => (Returned tt, {| rows := rows w ++ [r]; log := log w |}).

(** [try: body / except Exception as e: handler]: what [body] did to the world
    before it raised stays done; an exception that is not an [Exception]
    passes through. *)
Definition try_except_Exception {A} (body : M A) (handler : exn -> M A) : M A :=
  fun w =>
    match body w with
    | (Returned a, w') => (Returned a, w')
    | (Raised e, w') => if is_Exception e then handler e w' else (Raised e, w')
    end.

Declare Scope M_scope.
Delimit Scope M_scope with M.
Notation "x <- c ;; k" := (bind c (fun x => k))
  (at level 61, c at next level, right associativity) : M_scope.
Notation "c ;; k" := (bind c (fun _ => k))
  (at level 61, right associativity) : M_scope.

(** [i / n] on ints. Python passes on the float nearest to the quotient; the
    model keeps the two operands as a fraction and says nothing of the
    rounding. *)
Definition py_div (i n : nat) : outcome Q :=
  match n with
  | 0 => Raised (Exception "ZeroDivisionError")
  | S _ => Returned (Z.of_nat i # Pos.of_nat n)
  end.

(** [s.replace(" ", "+")] *)
Definition replace_spaces (s : text) : text :=
  map (fun c => if Ascii.eqb c " " then "+"%char else c) s.

Section Orchestrator.

Variable phonenumbers : PhoneLib.
Variable pyset : PySet.
(** [urlparse(link).netloc] of the standard library; it raises on some inputs. *)
Variable netloc : text -> outcome text.
Variable B : browser.

(** The optional observer; calling it may raise. *)
Variable progress : option (Q -> outcome unit).

Local Open Scope M_scope.

(** The body of the [try] for link [i] of [total]. *)
Definition visit_link (kw : text) (i : nat) (link : text) (total : nat) : M unit :=
  let v := visits B i link in
  call (v_new_page v) ;;
  emit (PageOpened i) ;;
  call (v_goto v) ;;
  call (v_wait v) ;;
  html <- call (v_content v) ;;
  call (v_close v) ;;
  emit (PageClosed i) ;;
  contacts <- call (extract_contacts_from_html phonenumbers pyset html) ;;
  dom <- call (netloc link) ;;
  append_row {| keyword := kw;
                url := link;
                domain := dom;
                emails := join (txt ", ") (fst contacts);
                phones := join (txt ", ") (snd contacts) |} ;;
  match progress with
  | Some observer =>
      q <- call (py_div i total) ;;
      emit (Reported q) ;;
      call (observer q)
  | None => ret tt
  end.

(** [for i, link in enumerate(links, 1)], from position [i] on. *)
Fixpoint visit_all (kw : text) (i : nat) (links : list text) (total : nat) : M unit :=
  match links with
  | [] => ret tt
  | link :: rest =>
      try_except_Exception (visit_link kw i link total)
                           (fun _ => emit (Printed link)) ;;
      visit_all kw (S i) rest total
  end.

(** The consent interstitial: dismissal is attempted, its failure ignored (a
    bare except clause). *)
Definition handle_consent (html : text) : outcome unit :=
  if str_in (txt "Before you continue") html || str_in (txt "consent") (search_page_url B)
  then try_except (obind (agree_click B) (fun _ => agree_wait B)) (fun _ => Returned tt)
  else Returned tt.

(** The whole run; [None] when the pagination loop did not end within [fuel]
    iterations. The result is what the coroutine returns or raises, and the
    world it leaves. *)
Definition scrape_social_media_async (fuel : nat) (kw : text)
    (selected_domains : list text) (max_results : Z)
  : option (outcome (list row) * world) :=
  let w0 := {| rows := []; log := [] |} in
  let start :=
    (call (launch B) ;;
     call (search_new_page B) ;;
     let query := build_query kw selected_domains in
     let search_url := txt "https://www.google.com/search?q=" ++ replace_spaces query in
     call (search_goto B search_url) ;;
     html <- call (search_content B) ;;
     call (handle_consent html)) in
  match start w0 with
  | (Raised e, w) => Some (Raised e, w)
  | (Returned _, w) =>
      match collect_links selected_domains max_results fuel (results B) 0 [] with
      | None => None
      | Some (Raised e) => Some (Raised e, w)
      | Some (Returned links) =>
          Some ((visit_all kw 1 links (length links) ;;
                 call (browser_close B) ;;
                 fun w' => (Returned (rows w'), w')) w)
      end
  end.

End Orchestrator.

(** ** What a match looks like: the language of a pattern *)

(** The character before the position that follows [w]. *)
Definition last_char (prev : option ascii) (w : text) : option ascii :=
  fold_left (fun _ c => Some c) w prev.

Definition within (hi : option nat) (n : nat) : Prop :=
  match hi with Some h => n <= h | None => True end.

(** [lang r prev w after]: [w] is a match of [r] when [prev] is the character
    before it and [after] the input behind it. *)
Fixpoint lang (r : regex) (prev : option ascii) (w after : text) : Prop :=
  match r with
  | Lit c => w = [c]
  | Class p => exists c, w = [c] /\ p c = true
  | Cat r1 r2 =>
      exists w1 w2, w = w1 ++ w2 /\
        lang r1 prev w1 (w2 ++ after) /\ lang r2 (last_char prev w1) w2 after
  | Maybe r1 => w = [] \/ lang r1 prev w after
  | Repeat p lo hi =>
      Forall (fun c => p c = true) w /\ lo <= length w /\ within hi (length w)
  | Boundary => w = [] /\ at_boundary prev after = true
  end.

(** An email in the sense of the specification: local-part, [@], domain, a dot
    and a top-level domain of two or more letters. *)
Definition email_syntax (w : text) : Prop :=
  exists local dom tld,
    w = local ++ "@"%char :: dom ++ "."%char :: tld /\
    local <> [] /\ Forall (fun c => is_local c = true) local /\
    dom <> [] /\ Forall (fun c => is_domain c = true) dom /\
    2 <= length tld /\ Forall (fun c => is_alpha c = true) tld.

(** The raw phone matches: an optional [+91] with at most one hyphen or
    whitespace character behind it, then a digit 6-9 and nine digits. *)
Definition phone_prefix (pre : text) : Prop :=
  pre = [] \/ pre = txt "+91" \/
  exists c, is_dash_or_space c = true /\ pre = txt "+91" ++ [c].

Definition phone_shape (w : text) : Prop :=
  exists pre d ds,
    w = pre ++ d :: ds /\ phone_prefix pre /\
    is_6_9 d = true /\ Forall (fun c => is_digit c = true) ds /\ length ds = 9.

(** A phone of an output record: it starts with [+91] and the validator
    returned true for it. *)
Definition phone_ok (L : PhoneLib) (p : text) : Prop :=
  startswith (txt "+91") p = true /\ validate_indian_number L p = Returned true.

(** A ten-digit mobile number as it is written: a digit 6-9, then nine digits. *)
Definition mobile10 (n : text) : Prop :=
  exists d ds, n = d :: ds /\ is_6_9 d = true /\
    Forall (fun c => is_digit c = true) ds /\ length ds = 9.

(** ** Instances to run the model on *)

(** A stand-in for [phonenumbers] that knows the mobile range of India's plan
    only: [+91], then a digit 6-9 and nine more digits. *)
Definition mobile_plan : PhoneLib := {|
  PhoneNumber := text;
  parse := fun s _ =>
    match s with
    | "+"%char :: "9"%char :: "1"%char :: national =>
        if forallb is_digit national && negb (length national =? 0)
        then Returned national
        else Raised (Exception "NumberParseException")
    | _ => Raised (Exception "NumberParseException")
    end;
  is_valid_number := fun n =>
    Returned ((length n =? 10) && match n with c :: _ => is_6_9 c | [] => false end);
  region_code_for_number := fun _ => Returned (Some (txt "IN"))
|}.

(** A set that iterates in the order of the last occurrences. *)
Definition ordered_set : PySet := {|
  set_iter := nodup text_dec;
  set_iter_NoDup := NoDup_nodup text_dec;
  set_iter_In := fun xs x => nodup_In text_dec xs x
|}.

(** A stand-in for [urlparse(link).netloc] that never raises and answers one
    fixed host; the examples do not depend on the host. *)
Definition simple_netloc (link : text) : outcome text :=
  Returned (txt "example.in").

Definition page_html : text :=
  txt "<p>Write to sales@lab.in or call 9876543210</p>".

Definition link_a : text := txt "https://linkedin.com/in/a".
Definition link_b : text := txt "https://linkedin.com/in/b".

(** One results page with two links and no next-page control; navigation to
    the first link times out, the second link loads. *)
Definition demo_browser : browser := {|
  launch := Returned tt;
  search_new_page := Returned tt;
  search_goto := fun _ => Returned tt;
  search_content := Returned (txt "<html>results</html>");
  search_page_url := txt "https://www.google.com/search";
  agree_click := Returned tt;
  agree_wait := Returned tt;
  results := fun _ =>
    {| anchors := Returned [Returned (Some link_a); Returned None;
                            Returned (Some link_a); Returned (Some link_b);
                            Returned (Some (txt "https://example.org/"))];
       next_btn := Returned false;
       next_click := Returned tt;
       next_wait := Returned tt |};
  visits := fun i _ =>
    {| v_new_page := Returned tt;
       v_goto := if i =? 1 then Raised (Exception "TimeoutError") else Returned tt;
       v_wait := Returned tt;
       v_content := Returned page_html;
       v_close := Returned tt |};
  browser_close := Returned tt
|}.

Definition quiet_observer : Q -> outcome unit := fun _ => Returned tt.

Definition empty_world : world := {| rows := []; log := [] |}.

(** A link on a selected domain: it contains one of the domain strings. *)
Definition on_selected_domain (selected_domains : list text) (u : text) : Prop :=
  exists d, In d selected_domains /\ exists a b, u = a ++ d ++ b.

(** No call on a results page raises. *)
Definition page_quiet (p : results_page) : Prop :=
  (exists rs, anchors p = Returned rs /\
              Forall (fun r => exists h, r = Returned h) rs) /\
  (exists found, next_btn p = Returned found) /\
  next_click p = Returned tt /\ next_wait p = Returned tt.

(** What the list of links satisfies between two steps of the collector. *)
Definition collected (selected_domains : list text) (max_results : Z)
    (links : list text) : Prop :=
  (Z.of_nat (length links) <= max_results)%Z /\ NoDup links /\
  Forall (on_selected_domain selected_domains) links.

(** A record whose contacts are the joined lists of syntactic emails and of
    validated [+91] phones. *)
Definition row_ok (L : PhoneLib) (r : row) : Prop :=
  exists es ps,
    emails r = join (txt ", ") es /\ phones r = join (txt ", ") ps /\
    Forall email_syntax es /\ Forall (phone_ok L) ps.

Definition returned {A} (o : outcome A) : bool :=
  match o with Returned _ => true | Raised _ => false end.

(** What a call raises, if anything, is an error: an [Exception]. *)
Definition is_error {A} (o : outcome A) : Prop :=
  forall e, o = Raised e -> is_Exception e = true.

(** The visit of link [i] goes through: opening the page, navigation, the
    settle wait, content capture, closing and [urlparse] all return. *)
Definition visit_ok (netloc : text -> outcome text) (B : browser)
    (i : nat) (link : text) : bool :=
  let v := visits B i link in
  returned (v_new_page v) && returned (v_goto v) && returned (v_wait v) &&
  returned (v_content v) && returned (v_close v) && returned (netloc link).

(** Nothing the per-link calls raise is outside [Exception]. *)
Definition errors_only (netloc : text -> outcome text) (B : browser)
    (progress : option (Q -> outcome unit)) : Prop :=
  forall i link,
    let v := visits B i link in
    is_error (v_new_page v) /\ is_error (v_goto v) /\ is_error (v_wait v) /\
    is_error (v_content v) /\ is_error (v_close v) /\ is_error (netloc link) /\
    forall observer q, progress = Some observer -> is_error (observer q).

(** [enumerate(xs, i)] *)
Fixpoint enumerate (i : nat) (xs : list text) : list (nat * text) :=
  match xs with
  | [] => []
  | x :: xs' => (i, x) :: enumerate (S i) xs'
  end.

(** The links, with their positions, whose visit goes through. *)
Definition visited (netloc : text -> outcome text) (B : browser)
    (i : nat) (links : list text) : list (nat * text) :=
  filter (fun p => visit_ok netloc B (fst p) (snd p)) (enumerate i links).

(** The fractions the observer was called with, in order. *)
Fixpoint reported (l : list event) : list Q :=
  match l with
  | [] => []
  | Reported q :: l' => q :: reported l'
  | _ :: l' => reported l'
  end.

(** The pages opened and not closed since, oldest first. *)
Fixpoint still_open (l : list event) (open : list nat) : list nat :=
  match l with
  | [] => open
  | PageOpened i :: l' => still_open l' (open ++ [i])
  | PageClosed i :: l' => still_open l' (filter (fun j => negb (j =? i)) open)
  | _ :: l' => still_open l' open
  end.

(** The observer is called once for every link, with position over total. *)
Definition reports_every_link (l : list event) (total : nat) : Prop :=
  forall i, 1 <= i <= total -> In (Z.of_nat i # Pos.of_nat total) (reported l).

(** Every page opened for a link is closed before the next link's page opens:
    at each [PageOpened] no earlier page is still open. *)
Definition pages_closed_between_links (l : list event) : Prop :=
  forall before i after, l = before ++ PageOpened i :: after -> still_open before [] = [].

(** What the observer is told after link [i] of [total] went through. *)
Definition progress_report (progress : option (Q -> outcome unit))
    (i total : nat) : list Q :=
  match progress, py_div i total with
  | Some _, Returned q => [q]
  | _, _ => []
  end.

(** The rows of the example run, and the loop over its two links. *)
Definition demo_rows : list row :=
  [ {| keyword := txt "dental lab";
       url := link_b;
       domain := txt "example.in";
       emails := txt "sales@lab.in";
       phones := txt "+919876543210" |} ].

Definition demo_visits (progress : option (Q -> outcome unit)) : outcome unit * world :=
  visit_all mobile_plan ordered_set simple_netloc demo_browser progress
            (txt "dental lab") 1 [link_a; link_b] 2 empty_world.

(** The number [n] is in the phone output, normalized, exactly once. *)
Definition extracted_once (L : PhoneLib) (S : PySet) (html n : text) : Prop :=
  exists es ps,
    extract_contacts_from_html L S html = Returned (es, ps) /\
    count_occ text_dec ps (txt "+91" ++ n) = 1.


(** The address of the first navigation. *)
Definition search_url (kw : text) (selected_domains : list text) : text :=
  txt "https://www.google.com/search?q=" ++
  replace_spaces (build_query kw selected_domains).

(** One of the calls before the consent check raises [e]: the launch, the
    first page, the navigation to the search or the capture of its markup. *)
Definition start_raises (B : browser) (url : text) (e : exn) : Prop :=
  launch B = Raised e \/
  (launch B = Returned tt /\
   (search_new_page B = Raised e \/
    (search_new_page B = Returned tt /\
     (search_goto B url = Raised e \/
      (search_goto B url = Returned tt /\ search_content B = Raised e))))).

(** The page of link [i] was opened and a later call on it raised: navigation,
    the settle wait, content capture or the close itself. *)
Definition leaks (B : browser) (i : nat) (link : text) : bool :=
  let v := visits B i link in
  returned (v_new_page v) &&
  negb (returned (v_goto v) && returned (v_wait v) &&
        returned (v_content v) && returned (v_close v)).

(** The example browser when the launch fails. *)
Definition unlaunched_browser : browser := {|
  launch := Raised (Exception "Error");
  search_new_page := search_new_page demo_browser;
  search_goto := search_goto demo_browser;
  search_content := search_content demo_browser;
  search_page_url := search_page_url demo_browser;
  agree_click := agree_click demo_browser;
  agree_wait := agree_wait demo_browser;
  results := results demo_browser;
  visits := visits demo_browser;
  browser_close := browser_close demo_browser
|}.

(** The example browser when the user interrupts the first navigation. *)
Definition interrupted_browser : browser := {|
  launch := launch demo_browser;
  search_new_page := search_new_page demo_browser;
  search_goto := search_goto demo_browser;
  search_content := search_content demo_browser;
  search_page_url := search_page_url demo_browser;
  agree_click := agree_click demo_browser;
  agree_wait := agree_wait demo_browser;
  results := results demo_browser;
  visits := fun i _ =>
    {| v_new_page := Returned tt;
       v_goto := if i =? 1 then Raised (BaseException "KeyboardInterrupt")
                 else Returned tt;
       v_wait := Returned tt;
       v_content := Returned page_html;
       v_close := Returned tt |};
  browser_close := browser_close demo_browser
|}.

(** No [+] with a word character before it ends [pre]: the leading [\b] of
    the phone pattern cannot hold at such a [+]. *)
Definition no_matchable_plus (pre : text) : Prop :=
  forall a, pre = a ++ ["+"%char] -> word_opt (last_char None a) = false.

Definition no_digit (s : text) : Prop := Forall (fun c => is_digit c = false) s.

Definition no_space (s : text) : Prop := Forall (fun c => c <> " "%char) s.

(** The distinct raw matches of the markup whose candidate is [c]: the surface
    forms in which the number [c] is matched. *)
Definition surface_forms (S : PySet) (html c : text) : list text :=
  filter (fun w => text_eqb (candidate_of w) c)
         (set_iter S (findall PHONE_RE html)).

(** * Properties *)

(** ** The matcher finds only words of the pattern's language *)

Lemma last_char_app prev w1 w2 :
  last_char prev (w1 ++ w2) = last_char (last_char prev w1) w2.
Proof. unfold last_char. apply fold_left_app. Qed.

Lemma last_char_cons prev c w : last_char prev (c :: w) = last_char (Some c) w.
Proof. reflexivity. Qed.

Lemma within_pred hi n :
  can_take hi = true -> within (option_map pred hi) n -> within hi (S n).
Proof.
  destruct hi as [[|h]|]; simpl; intros; try discriminate; try lia; auto.
Qed.

Lemma rep_sound p k : forall s lo hi prev res,
  rep p lo hi k prev s = Some res ->
  exists w rest, s = w ++ rest /\
    Forall (fun c => p c = true) w /\ lo <= length w /\ within hi (length w) /\
    k (last_char prev w) rest = Some res.
Proof.
  assert (Hstop : forall s lo hi prev res,
    match lo with 0 => k prev s | S _ => None end = Some res ->
    exists w rest, s = w ++ rest /\
      Forall (fun c => p c = true) w /\ lo <= length w /\ within hi (length w) /\
      k (last_char prev w) rest = Some res).
  { intros s lo hi prev res H. destruct lo; [|discriminate].
    exists [], s. repeat split; auto.
    destruct hi; simpl; lia. }
  induction s as [|c s IH]; intros lo hi prev res H; simpl in H.
  - eauto.
  - destruct (p c && can_take hi) eqn:E; [|eauto].
    apply andb_true_iff in E as [Hp Hc].
    destruct (rep p (pred lo) (option_map pred hi) k (Some c) s) as [r|] eqn:R;
      [|eauto].
    injection H as <-.
    apply IH in R as (w & rest & -> & Hall & Hlo & Hhi & Hk).
    exists (c :: w), rest. simpl length. repeat split; auto.
    + lia.
    + now apply within_pred.
Qed.

Theorem run_sound : forall r k prev s res,
  run r k prev s = Some res ->
  exists w rest, s = w ++ rest /\ lang r prev w rest /\
    k (last_char prev w) rest = Some res.
Proof.
  induction r as [c|p|r1 IH1 r2 IH2|r1 IH1|p lo hi|];
    intros k prev s res H; simpl in H.
  - destruct s as [|x s']; [discriminate|].
    destruct (Ascii.eqb x c) eqn:E; [|discriminate].
    apply Ascii.eqb_eq in E as ->.
    exists [c], s'. simpl. auto.
  - destruct s as [|x s']; [discriminate|].
    destruct (p x) eqn:E; [|discriminate].
    exists [x], s'. simpl. eauto.
  - apply IH1 in H as (w1 & rest1 & -> & L1 & H).
    apply IH2 in H as (w2 & rest2 & -> & L2 & H).
    exists (w1 ++ w2), rest2. rewrite app_assoc, last_char_app.
    repeat split; auto. simpl. eauto.
  - destruct (run r1 k prev s) as [res'|] eqn:E.
    + injection H as <-.
      apply IH1 in E as (w & rest & -> & L & H).
      exists w, rest. simpl. auto.
    + exists [], s. simpl. auto.
  - apply rep_sound in H as (w & rest & -> & Hall & Hlo & Hhi & Hk).
    exists w, rest. simpl. auto.
  - destruct (at_boundary prev s) eqn:E; [|discriminate].
    exists [], s. simpl. auto.
Qed.

(** A match found at a position is a word of the language, and it is the
    prefix of the input that [match_at] measures. *)
Lemma match_at_sound r prev s n :
  match_at r prev s = Some n ->
  exists after, s = firstn n s ++ after /\ length (firstn n s) = n /\
    lang r prev (firstn n s) after.
Proof.
  unfold match_at. intros H.
  destruct (run r (fun _ rest => Some rest) prev s) as [rest|] eqn:E; [|discriminate].
  injection H as <-.
  apply run_sound in E as (w & rest' & -> & L & [= ->]).
  rewrite length_app, Nat.add_sub, firstn_app, Nat.sub_diag, firstn_all.
  simpl. rewrite app_nil_r. eauto.
Qed.

(** Every string [findall] returns is a non-empty match at some position of the
    scanned input. *)
Lemma scan_sound r : forall s prev skip w,
  In w (scan r prev s skip) ->
  w <> [] /\ exists prev' after, lang r prev' w after.
Proof.
  induction s as [|c s IH]; intros prev skip w H; simpl in H; [tauto|].
  destruct skip as [|k]; [|eauto].
  destruct (match_at r prev (c :: s)) as [[|n]|] eqn:E; eauto.
  destruct H as [<-|H]; [|eauto].
  split; [discriminate|].
  apply match_at_sound in E as (after & _ & _ & L). eauto.
Qed.

Lemma findall_sound r s w :
  In w (findall r s) -> w <> [] /\ exists prev after, lang r prev w after.
Proof. apply scan_sound. Qed.

(** ** The shapes of the two patterns *)

Lemma Forall_nonempty (P : ascii -> Prop) (w : text) : 1 <= length w -> w <> [].
Proof. destruct w; simpl; [lia|discriminate]. Qed.

Lemma email_lang prev w after : lang EMAIL_RE prev w after -> email_syntax w.
Proof.
  simpl. intros (l & w1 & -> & (Hl & Hl1 & _) & at_ & w2 & -> & -> &
                 d & w3 & -> & (Hd & Hd1 & _) & dot & tld & -> & -> & Ht & Ht2 & _).
  exists l, d, tld. repeat split; auto.
  - now apply (Forall_nonempty (fun _ => True)).
  - now apply (Forall_nonempty (fun _ => True)).
Qed.

Lemma phone_lang prev w after :
  lang PHONE_RE prev w after ->
  phone_shape w /\ at_boundary prev (w ++ after) = true /\
  at_boundary (last_char prev w) after = true.
Proof.
  simpl.
  intros (b1 & w1 & -> & (-> & Hb1) & pre & w2 & -> & Hpre &
          d1 & w3 & -> & (d & -> & Hd) & ds & b2 & -> & (Hds & Hlo & Hhi) & -> & Hb2).
  simpl in Hb1. rewrite app_nil_r in *.
  assert (Hp : phone_prefix pre).
  { destruct Hpre as [->|(p1 & r1 & -> & -> & p2 & r2 & -> & -> & p3 & r3 & -> & -> & Hsep)].
    - left; reflexivity.
    - destruct Hsep as [->|(c & -> & Hc)].
      + right; left; reflexivity.
      + right; right. exists c. auto. }
  split; [|split].
  - exists pre, d, ds. repeat split; auto. lia.
  - exact Hb1.
  - rewrite !last_char_app in *. exact Hb2.
Qed.

Lemma email_match_nonempty prev s : match_at EMAIL_RE prev s <> Some 0.
Proof.
  intros H. apply match_at_sound in H as (after & _ & _ & L).
  apply email_lang in L as (l & d & t & E & _). simpl in E.
  destruct l; discriminate.
Qed.

Lemma phone_match_nonempty prev s : match_at PHONE_RE prev s <> Some 0.
Proof.
  intros H. apply match_at_sound in H as (after & _ & _ & L).
  apply phone_lang in L as ((pre & d & ds & E & _) & _). simpl in E.
  destruct pre; discriminate.
Qed.

(** ** Text helpers *)

Lemma text_eqb_eq a b : text_eqb a b = true <-> a = b.
Proof. unfold text_eqb. destruct (text_dec a b); split; congruence. Qed.

Lemma mem_In x xs : mem x xs = true <-> In x xs.
Proof.
  unfold mem. rewrite existsb_exists. split.
  - intros (y & Hy & E). apply text_eqb_eq in E. now subst.
  - intros H. exists x. split; [assumption|]. now apply text_eqb_eq.
Qed.

Lemma startswith_spec p : forall s,
  startswith p s = true <-> exists b, s = p ++ b.
Proof.
  induction p as [|a p IH]; intros s; simpl.
  - split; eauto.
  - destruct s as [|c s].
    + split; [discriminate|]. intros (b & Hb). discriminate.
    + rewrite andb_true_iff, Ascii.eqb_eq, IH. split.
      * intros (-> & b & ->). eauto.
      * intros (b & [= -> ->]). eauto.
Qed.

(** [str_in] is the substring test. *)
Lemma str_in_spec needle : forall hay,
  str_in needle hay = true <-> exists a b, hay = a ++ needle ++ b.
Proof.
  induction hay as [|c hay IH]; simpl; rewrite orb_true_iff, startswith_spec.
  - split.
    + intros [(b & Hb)|]; [|discriminate]. exists [], b. assumption.
    + intros (a & b & H). left. destruct a; [|discriminate]. eauto.
  - rewrite IH. split.
    + intros [(b & Hb)|(a & b & ->)].
      * exists [], b. assumption.
      * exists (c :: a), b. reflexivity.
    + intros (a & b & H). destruct a as [|x a].
      * left. eauto.
      * right. injection H as -> ->. eauto.
Qed.

(** ** Phone validator *)

Section ExtractorFacts.

Variable phonenumbers : PhoneLib.
Variable pyset : PySet.

Local Abbreviation validate := (validate_indian_number phonenumbers).
Local Abbreviation extract := (extract_contacts_from_html phonenumbers pyset).

Lemma validate_returns s : exists b, validate s = Returned b.
Proof.
  unfold validate_indian_number, try_except, obind.
  destruct (parse phonenumbers s (txt "IN")) as [num|]; [|eauto].
  destruct (is_valid_number phonenumbers num) as [[]|]; eauto.
  destruct (region_code_for_number phonenumbers num); eauto.
Qed.

(** ** Contact extractor *)

Lemma clean_loop_returns : forall items acc,
  exists ps, clean_loop phonenumbers items acc = Returned ps.
Proof.
  induction items as [|ph items IH]; intros acc; simpl; [eauto|].
  destruct (validate_returns (candidate_of ph)) as (b & ->). simpl. apply IH.
Qed.

Lemma clean_loop_sound (P : text -> Prop) : forall items acc ps,
  clean_loop phonenumbers items acc = Returned ps ->
  (forall ph, In ph items -> validate (candidate_of ph) = Returned true ->
              P (candidate_of ph)) ->
  Forall P acc -> Forall P ps.
Proof.
  induction items as [|ph items IH]; intros acc ps H Hi Ha; simpl in H.
  - now injection H as <-.
  - destruct (validate (candidate_of ph)) as [ok|] eqn:E; simpl in H; [|discriminate].
    apply IH in H; auto.
    + intros; apply Hi; simpl; auto.
    + destruct ok; auto. apply Forall_app. split; auto.
      constructor; auto. apply Hi; simpl; auto.
Qed.

(** A candidate that validates is appended. *)
Lemma clean_loop_complete : forall items acc ps ph,
  clean_loop phonenumbers items acc = Returned ps ->
  In ph items -> validate (candidate_of ph) = Returned true ->
  In (candidate_of ph) ps.
Proof.
  assert (Hacc : forall items acc ps x,
    clean_loop phonenumbers items acc = Returned ps -> In x acc -> In x ps).
  { induction items as [|ph items IH]; intros acc ps x H Hx; simpl in H.
    - now injection H as <-.
    - destruct (validate (candidate_of ph)) as [ok|]; simpl in H; [|discriminate].
      eapply IH; [eassumption|]. destruct ok; auto. apply in_or_app; auto. }
  induction items as [|a items IH]; intros acc ps ph H Hin Hv; simpl in *; [tauto|].
  destruct Hin as [->|Hin].
  - rewrite Hv in H. simpl in H. eapply Hacc; [eassumption|].
    apply in_or_app. right. simpl. auto.
  - destruct (validate (candidate_of a)) as [ok|]; simpl in H; [|discriminate].
    eapply IH; eassumption.
Qed.

Lemma strip_digits_all ds :
  Forall (fun c => is_digit c = true) ds -> strip_non_digits ds = ds.
Proof.
  unfold strip_non_digits. induction 1 as [|c ds Hc _ IH]; simpl; [reflexivity|].
  now rewrite Hc, IH.
Qed.

Lemma is_6_9_digit c : is_6_9 c = true -> is_digit c = true.
Proof.
  destruct c as [[] [] [] [] [] [] [] []]; vm_compute; congruence.
Qed.

Lemma dash_or_space_not_digit c : is_dash_or_space c = true -> is_digit c = false.
Proof.
  destruct c as [[] [] [] [] [] [] [] []]; vm_compute; congruence.
Qed.

(** The digits left of a raw match: ten digits, behind [91] when the match has
    the prefix. *)
Lemma strip_phone_shape pre d ds :
  phone_prefix pre -> is_6_9 d = true ->
  Forall (fun c => is_digit c = true) ds ->
  strip_non_digits (pre ++ d :: ds) =
    (match pre with [] => [] | _ => txt "91" end) ++ d :: ds.
Proof.
  intros Hp Hd Hds. unfold strip_non_digits. rewrite filter_app.
  fold (strip_non_digits (d :: ds)).
  rewrite (strip_digits_all (d :: ds))
    by (constructor; [now apply is_6_9_digit | assumption]).
  destruct Hp as [->|[->|(c & Hc & ->)]]; try reflexivity.
  simpl. now rewrite (dash_or_space_not_digit c Hc).
Qed.

Lemma candidate_prefix w : phone_shape w -> startswith (txt "+91") (candidate_of w) = true.
Proof.
  intros (pre & d & ds & -> & Hp & Hd & Hds & Hlen).
  unfold candidate_of. rewrite (strip_phone_shape pre d ds Hp Hd Hds).
  destruct pre as [|p pre]; [|reflexivity].
  cbn [app]. destruct (startswith (txt "91") (d :: ds)) eqn:E.
  - cbn [negb andb]. simpl in E |- *. exact E.
  - cbn [negb andb length]. rewrite Hlen. reflexivity.
Qed.

Lemma extract_sound html es ps :
  extract html = Returned (es, ps) ->
  Forall email_syntax es /\ Forall (phone_ok phonenumbers) ps.
Proof.
  unfold extract_contacts_from_html, obind. intros H.
  destruct (clean_loop phonenumbers _ []) as [ps'|] eqn:E; [|discriminate].
  injection H as <- <-. split.
  - apply Forall_forall. intros w Hw. apply set_iter_In in Hw.
    apply findall_sound in Hw as (_ & prev & after & L).
    eapply email_lang; eassumption.
  - eapply clean_loop_sound; [eassumption| |constructor].
    intros ph Hph Hv. split; [|assumption].
    apply set_iter_In in Hph.
    apply findall_sound in Hph as (_ & prev & after & L).
    apply candidate_prefix. eapply phone_lang; eassumption.
Qed.

End ExtractorFacts.

Lemma extract_returns (L : PhoneLib) (S : PySet) (html : text) :
  exists es ps, extract_contacts_from_html L S html = Returned (es, ps).
Proof.
  unfold extract_contacts_from_html.
  destruct (clean_loop_returns L (set_iter S (findall PHONE_RE html)) [])
    as (ps & ->).
  simpl. eauto.
Qed.

(** C5. [validate_indian_number] returns a boolean on every input and never
    raises; when [parse] raises it returns false; it returns true exactly when
    [parse] returned a number that [is_valid_number] accepts and whose region
    is "IN". *)
Theorem validate_indian_number_catches_all (L : PhoneLib) (s : text) :
  (exists b, validate_indian_number L s = Returned b) /\
  (forall e, parse L s (txt "IN") = Raised e ->
             validate_indian_number L s = Returned false) /\
  (validate_indian_number L s = Returned true <->
   exists num, parse L s (txt "IN") = Returned num /\
               is_valid_number L num = Returned true /\
               region_code_for_number L num = Returned (Some (txt "IN"))).
Proof.
  split; [apply validate_returns|]. split.
  - intros e H. unfold validate_indian_number. now rewrite H.
  - unfold validate_indian_number, try_except, obind. split.
    + intros H.
      destruct (parse L s (txt "IN")) as [num|]; [|discriminate H].
      destruct (is_valid_number L num) as [[]|] eqn:V; try discriminate H.
      destruct (region_code_for_number L num) as [[r|]|] eqn:R; try discriminate H.
      injection H as E. apply text_eqb_eq in E as ->. eauto.
    + intros (num & -> & -> & ->). reflexivity.
Qed.

(** C10. On every markup [extract_contacts_from_html] returns a pair of lists:
    the scans are total functions and the validator absorbs what the phone
    library raises. *)
Theorem extract_contacts_from_html_returns (L : PhoneLib) (S : PySet) (html : text) :
  exists es ps, extract_contacts_from_html L S html = Returned (es, ps).
Proof. apply extract_returns. Qed.

(** C9. The query for keyword "dental lab" and domain linkedin.com contains
    [site:linkedin.com], the quoted keyword and the quoted "Mumbai"; the query
    is a function of the two arguments alone. *)
Theorem build_query_dental_lab :
  let q := build_query (txt "dental lab") [txt "linkedin.com"] in
  (exists a b, q = a ++ txt "site:linkedin.com" ++ b) /\
  (exists a b, q = a ++ (dq ++ txt "dental lab" ++ dq) ++ b) /\
  (exists a b, q = a ++ (dq ++ txt "Mumbai" ++ dq) ++ b).
Proof.
  cbv zeta. repeat split; apply str_in_spec; vm_compute; reflexivity.
Qed.

(** ** Link collector *)

Section CollectorFacts.

Variable selected_domains : list text.
Variable max_results : Z.

Local Abbreviation full := (reached max_results).
Local Abbreviation page_loop := (collect_page selected_domains max_results).
Local Abbreviation while_loop := (collect_links selected_domains max_results).

Local Abbreviation inv := (collected selected_domains max_results).

Lemma wanted_spec h links :
  wanted selected_domains h links = true ->
  on_selected_domain selected_domains h /\ ~ In h links.
Proof.
  unfold wanted. destruct h as [|c h]; [discriminate|].
  rewrite andb_true_iff, negb_true_iff, existsb_exists.
  intros ((d & Hd & Hin) & Hm). split.
  - exists d. split; [assumption|]. now apply str_in_spec.
  - intros Habs. apply mem_In in Habs. congruence.
Qed.

Lemma collect_page_inv : forall rs links out,
  page_loop rs links = Returned out ->
  full links = false -> inv links -> inv out.
Proof.
  induction rs as [|r rs IH]; intros links out H Hr Hc; simpl in H.
  - now injection H as <-.
  - destruct r as [[h|]|]; simpl in H; try discriminate; [|eauto].
    destruct (wanted selected_domains h links) eqn:W; [|eauto].
    apply wanted_spec in W as (Hd & Hn).
    assert (Hc' : inv (links ++ [h])).
    { destruct Hc as (Hlen & Hnd & Hall). unfold collected.
      unfold reached in Hr. apply Z.leb_gt in Hr.
      rewrite length_app. simpl. repeat split.
      - lia.
      - apply NoDup_app; auto.
        + constructor; [simpl; tauto|constructor].
        + intros x Hx [<-|[]]. contradiction.
      - apply Forall_app. auto. }
    destruct (full (links ++ [h])) eqn:R.
    + now injection H as <-.
    + eauto.
Qed.

Lemma collect_links_inv : forall fuel pages n links out,
  while_loop fuel pages n links = Some (Returned out) ->
  inv links -> inv out.
Proof.
  induction fuel as [|fuel IH]; intros pages n links out H Hc; simpl in H;
    [discriminate|].
  destruct (full links) eqn:R; [now injection H as <-|].
  destruct (anchors (pages n)) as [rs|]; [|discriminate].
  destruct (page_loop rs links) as [links'|] eqn:P; [|discriminate].
  apply collect_page_inv in P; auto.
  destruct (next_btn (pages n)) as [found|]; [|discriminate].
  destruct (negb found || full links'); [now injection H as <-|].
  destruct (obind (next_click (pages n)) (fun _ => next_wait (pages n)));
    [|discriminate].
  eauto.
Qed.

Lemma collect_page_quiet : forall rs links,
  Forall (fun r => exists h, r = Returned h) rs ->
  exists out, page_loop rs links = Returned out.
Proof.
  induction rs as [|r rs IH]; intros links Hq; simpl; [eauto|].
  inversion Hq as [|? ? (h & ->) Hq']; subst. simpl.
  destruct h as [h|]; [|eauto].
  destruct (wanted selected_domains h links); [|eauto].
  destruct (full (links ++ [h])); eauto.
Qed.

(** With no next-page control [k] pages ahead, [k + 1] iterations end the loop. *)
Lemma collect_links_ends pages : forall k n links,
  next_btn (pages (n + k)) = Returned false ->
  exists o, while_loop (S k) pages n links = Some o /\
    ((forall j, n <= j <= n + k -> page_quiet (pages j)) ->
     exists out, o = Returned out).
Proof.
  induction k as [|k IH]; intros n links Hlast.
  - rewrite Nat.add_0_r in Hlast. simpl.
    destruct (full links); [eauto|].
    destruct (anchors (pages n)) as [rs|e] eqn:A.
    + destruct (page_loop rs links) as [links'|e] eqn:P.
      * rewrite Hlast. simpl. eauto.
      * eexists; split; [reflexivity|]. intros Hq.
        destruct (Hq n ltac:(lia)) as ((rs' & A' & Hrs) & _).
        rewrite A in A'. injection A' as <-.
        destruct (collect_page_quiet rs links Hrs) as (out & E). congruence.
    + eexists; split; [reflexivity|]. intros Hq.
      destruct (Hq n ltac:(lia)) as ((rs' & A' & _) & _). congruence.
  - cbn [collect_links].
    destruct (full links); [eauto|].
    destruct (anchors (pages n)) as [rs|e] eqn:A.
    + destruct (page_loop rs links) as [links'|e] eqn:P.
      * destruct (next_btn (pages n)) as [found|e] eqn:N.
        -- destruct (negb found || full links'); [eauto|].
           destruct (next_click (pages n)) as [[]|e] eqn:C; simpl.
           ++ destruct (next_wait (pages n)) as [[]|e] eqn:W.
              ** destruct (IH (S n) links') as (o & Ho & Hq').
                 { now rewrite Nat.add_succ_comm. }
                 exists o. split; [assumption|]. intros Hq. apply Hq'.
                 intros j Hj. apply Hq. lia.
              ** eexists; split; [reflexivity|]. intros Hq.
                 destruct (Hq n ltac:(lia)) as (_ & _ & _ & W'). congruence.
           ++ eexists; split; [reflexivity|]. intros Hq.
              destruct (Hq n ltac:(lia)) as (_ & _ & C' & _). congruence.
        -- eexists; split; [reflexivity|]. intros Hq.
           destruct (Hq n ltac:(lia)) as (_ & (f & N') & _). congruence.
      * eexists; split; [reflexivity|]. intros Hq.
        destruct (Hq n ltac:(lia)) as ((rs' & A' & Hrs) & _).
        rewrite A in A'. injection A' as <-.
        destruct (collect_page_quiet rs links Hrs) as (out & E). congruence.
    + eexists; split; [reflexivity|]. intros Hq.
      destruct (Hq n ltac:(lia)) as ((rs' & A' & _) & _). congruence.
Qed.

End CollectorFacts.

(** C3. With [max_results >= 1] and any sequence of results pages, the list the
    collector returns has at most [max_results] links, no link twice, and
    every link contains one of the selected domain strings. *)
Theorem link_collector_bounded_unique_on_domain
    (selected_domains : list text) (max_results : Z) (fuel : nat)
    (pages : nat -> results_page) (links : list text) :
  (1 <= max_results)%Z ->
  collect_links selected_domains max_results fuel pages 0 [] = Some (Returned links) ->
  (Z.of_nat (length links) <= max_results)%Z /\ NoDup links /\
  Forall (on_selected_domain selected_domains) links.
Proof.
  intros Hmax H.
  apply (collect_links_inv selected_domains max_results fuel pages 0 [] links H).
  repeat split; simpl; [lia|constructor|constructor].
Qed.

Lemma link_collector_bounded_unique_on_domain_witness :
  (Z.of_nat (length [link_a; link_b]) <= 10)%Z /\ NoDup [link_a; link_b] /\
  Forall (on_selected_domain [txt "linkedin.com"]) [link_a; link_b].
Proof.
  apply (link_collector_bounded_unique_on_domain
           [txt "linkedin.com"] 10 3 (results demo_browser) [link_a; link_b]).
  - lia.
  - vm_compute. reflexivity.
Defined.

(** C4. When some results page has no next-page control, the pagination loop
    ends after finitely many iterations whether or not [max_results] was
    reached; when moreover no browser call raises up to that page, the
    collector returns its list of links. *)
Theorem pagination_terminates
    (selected_domains : list text) (max_results : Z)
    (pages : nat -> results_page) (last : nat) :
  next_btn (pages last) = Returned false ->
  exists fuel o,
    collect_links selected_domains max_results fuel pages 0 [] = Some o /\
    ((forall j, j <= last -> page_quiet (pages j)) -> exists links, o = Returned links).
Proof.
  intros Hlast.
  destruct (collect_links_ends selected_domains max_results pages last 0 [] Hlast)
    as (o & Ho & Hq).
  exists (S last), o. split; [assumption|].
  intros Hquiet. apply Hq. intros j Hj. apply Hquiet. lia.
Qed.

Lemma pagination_terminates_witness :
  exists fuel o,
    collect_links [txt "linkedin.com"] 10 fuel (results demo_browser) 0 [] = Some o /\
    ((forall j, j <= 0 -> page_quiet (results demo_browser j)) ->
     exists links, o = Returned links).
Proof.
  apply (pagination_terminates [txt "linkedin.com"] 10 (results demo_browser) 0).
  reflexivity.
Defined.

(** ** Pipeline orchestrator *)

Lemma reported_app l1 l2 : reported (l1 ++ l2) = reported l1 ++ reported l2.
Proof.
  induction l1 as [|e l1 IH]; simpl; [reflexivity|].
  destruct e; simpl; now rewrite IH.
Qed.

(** An exception the body raises came out of one of its calls. *)
Ltac by_error Herr :=
  let H := fresh in let e := fresh in let E := fresh in
  intros H e E; destruct (Herr H) as (? & ? & ? & ? & ? & ? & ?);
  unfold is_error in *; injection E as <-;
  match goal with
  | Hx : forall x, ?o = Raised x -> is_Exception x = true |- _ =>
      solve [apply Hx; reflexivity]
  | Hx : forall f q, _ = Some f -> forall x, f q = Raised x -> _ |- _ =>
      solve [eapply Hx; [reflexivity|eassumption]]
  end.

Section OrchestratorFacts.

Variable phonenumbers : PhoneLib.
Variable pyset : PySet.
Variable netloc : text -> outcome text.
Variable B : browser.
Variable progress : option (Q -> outcome unit).

Local Abbreviation body := (visit_link phonenumbers pyset netloc B progress).
Local Abbreviation loop := (visit_all phonenumbers pyset netloc B progress).
Local Abbreviation ok := (visit_ok netloc B).
Local Abbreviation errors := (errors_only netloc B progress).

(** The effect of the body of the [try] on the rows and on the reports. *)
Lemma visit_link_effect kw i link total w :
  exists o w', body kw i link total w = (o, w') /\
    (if ok i link
     then exists r, rows w' = rows w ++ [r] /\ url r = link /\
            row_ok phonenumbers r /\
            reported (log w') = reported (log w) ++ progress_report progress i total
     else rows w' = rows w /\ reported (log w') = reported (log w) /\
          exists e, o = Raised e) /\
    (errors -> forall e, o = Raised e -> is_Exception e = true).
Proof.
  unfold visit_link, visit_ok, errors_only, progress_report.
  set (v := visits B i link).
  assert (Herr : errors ->
    is_error (v_new_page v) /\ is_error (v_goto v) /\ is_error (v_wait v) /\
    is_error (v_content v) /\ is_error (v_close v) /\ is_error (netloc link) /\
    forall observer q, progress = Some observer -> is_error (observer q)).
  { intros H. apply (H i link). }
  unfold bind, call, emit, append_row, ret. cbn [rows log].
  destruct (v_new_page v) as [[]|e1] eqn:E1; cbn.
  2:{ do 2 eexists. split; [reflexivity|]. split; [eauto|].
      by_error Herr. }
  destruct (v_goto v) as [[]|e2] eqn:E2; cbn.
  2:{ do 2 eexists. split; [reflexivity|]. cbn. rewrite reported_app, app_nil_r.
      split; [eauto|]. by_error Herr. }
  destruct (v_wait v) as [[]|e3] eqn:E3; cbn.
  2:{ do 2 eexists. split; [reflexivity|]. cbn. rewrite reported_app, app_nil_r.
      split; [eauto|]. by_error Herr. }
  destruct (v_content v) as [html|e4] eqn:E4; cbn.
  2:{ do 2 eexists. split; [reflexivity|]. cbn. rewrite reported_app, app_nil_r.
      split; [eauto|]. by_error Herr. }
  destruct (v_close v) as [[]|e5] eqn:E5; cbn.
  2:{ do 2 eexists. split; [reflexivity|]. cbn. rewrite reported_app, app_nil_r.
      split; [eauto|]. by_error Herr. }
  destruct (extract_returns phonenumbers pyset html)
    as (es & ps & X).
  rewrite X. cbn.
  destruct (netloc link) as [dom|e6] eqn:E6; cbn.
  2:{ do 2 eexists. split; [reflexivity|]. cbn. rewrite !reported_app, !app_nil_r.
      split; [eauto|]. by_error Herr. }
  apply extract_sound in X as (Hes & Hps).
  assert (Hrow : row_ok phonenumbers
            {| keyword := kw; url := link; domain := dom;
               emails := join (txt ", ") es; phones := join (txt ", ") ps |}).
  { exists es, ps. cbn. auto. }
  destruct progress as [observer|].
  - destruct (py_div i total) as [q|e7] eqn:E7; cbn.
    + destruct (observer q) as [[]|e8] eqn:E8;
        (do 2 eexists; split; [reflexivity|]; cbn;
         rewrite !reported_app; cbn; rewrite !app_nil_r; split;
         [eexists; repeat split; eauto|]).
      * discriminate.
      * by_error Herr.
    + do 2 eexists. split; [reflexivity|]. cbn.
      rewrite !reported_app. cbn. rewrite !app_nil_r. split.
      * eexists. repeat split; eauto.
      * intros _ e [= <-]. unfold py_div in E7. destruct total; [|discriminate].
        now injection E7 as <-.
  - do 2 eexists. split; [reflexivity|]. cbn.
    rewrite !reported_app. cbn. rewrite !app_nil_r. split.
    + eexists. repeat split; eauto.
    + discriminate.
Qed.

(** The [try] statement around the body: an error is printed and absorbed. *)
Lemma visit_step_effect kw i link total w :
  exists o w',
    try_except_Exception (body kw i link total) (fun _ => emit (Printed link)) w
      = (o, w') /\
    (if ok i link
     then exists r, rows w' = rows w ++ [r] /\ url r = link /\
            row_ok phonenumbers r /\
            reported (log w') = reported (log w) ++ progress_report progress i total
     else rows w' = rows w /\ reported (log w') = reported (log w)) /\
    (errors -> o = Returned tt).
Proof.
  destruct (visit_link_effect kw i link total w) as (o & w1 & E & Hrows & Herr).
  unfold try_except_Exception. rewrite E.
  destruct o as [[]|e].
  - exists (Returned tt), w1. split; [reflexivity|]. split; [|reflexivity].
    destruct (ok i link); [assumption|tauto].
  - destruct (is_Exception e) eqn:X.
    + eexists _, _. split; [reflexivity|]. unfold emit. cbn [rows log].
      rewrite reported_app, app_nil_r. split; [|reflexivity].
      destruct (ok i link); [assumption|tauto].
    + exists (Raised e), w1. split; [reflexivity|]. split.
      * destruct (ok i link); [assumption|tauto].
      * intros H. specialize (Herr H e eq_refl). congruence.
Qed.

(** Whatever the browser does, the rows stay records of validated contacts. *)
Lemma visit_all_rows_ok : forall links kw i total w,
  Forall (row_ok phonenumbers) (rows w) ->
  Forall (row_ok phonenumbers) (rows (snd (loop kw i links total w))).
Proof.
  induction links as [|link links IH]; intros kw i total w Hw; [assumption|].
  cbn [visit_all]. unfold bind at 1.
  destruct (visit_step_effect kw i link total w) as (o & w1 & -> & Hrows & _).
  assert (H1 : Forall (row_ok phonenumbers) (rows w1)).
  { destruct (ok i link).
    - destruct Hrows as (r & -> & _ & Hr & _). apply Forall_app. auto.
    - destruct Hrows as (-> & _). assumption. }
  destruct o; [apply IH|]; assumption.
Qed.

(** When only errors are raised the loop runs to its end: the rows are those of
    the links whose visit went through, in the order of the links, and so are
    the reports. *)
Lemma visit_all_effect : errors -> forall links kw i total w,
  exists w', loop kw i links total w = (Returned tt, w') /\
    map url (rows w') = map url (rows w) ++ map snd (visited netloc B i links) /\
    reported (log w') =
      reported (log w) ++
      flat_map (fun p => progress_report progress (fst p) total)
               (visited netloc B i links).
Proof.
  intros Herr. unfold visited.
  induction links as [|link links IH]; intros kw i total w.
  - exists w. cbn. now rewrite !app_nil_r.
  - cbn [visit_all enumerate filter fst snd]. unfold bind at 1.
    destruct (visit_step_effect kw i link total w) as (o & w1 & -> & Hrows & Ho).
    rewrite (Ho Herr).
    destruct (IH kw (S i) total w1) as (w' & -> & Hu & Hq).
    exists w'. split; [reflexivity|]. rewrite Hu, Hq.
    destruct (ok i link).
    + destruct Hrows as (r & -> & <- & _ & ->).
      cbn [map flat_map fst snd]. rewrite map_app. cbn [map].
      rewrite <- !app_assoc. auto.
    + destruct Hrows as (-> & ->). auto.
Qed.

(** Before the links are visited the run awaits the browser only. *)
Lemma scrape_rows fuel kw selected_domains max_results out w :
  scrape_social_media_async phonenumbers pyset netloc B progress
    fuel kw selected_domains max_results = Some (Returned out, w) ->
  exists links w0,
    rows w0 = [] /\
    out = rows (snd (loop kw 1 links (length links) w0)).
Proof.
  unfold scrape_social_media_async, bind, call, ret.
  destruct (launch B); [|discriminate].
  destruct (search_new_page B); [|discriminate].
  destruct (search_goto B _); [|discriminate].
  destruct (search_content B); [|discriminate].
  destruct (handle_consent B _); [|discriminate].
  destruct (collect_links _ _ _ _ _ _) as [[links|]|]; try discriminate.
  intros H. exists links, {| rows := []; log := [] |}. split; [reflexivity|].
  destruct (loop kw 1 links (length links) _) as [[[]|] w1]; [|discriminate].
  destruct (browser_close B); [|discriminate].
  cbn. now injection H as <- _.
Qed.

End OrchestratorFacts.

(** C2. Every record a run returns carries, in its [phones] field, the joined
    list of phones that start with [+91] and for which the validator returned
    true, and in its [emails] field the joined list of strings of the shape
    local-part [@] domain [.] letters (two or more). *)
Theorem extraction_records_valid
    (L : PhoneLib) (S : PySet) (netloc : text -> outcome text) (B : browser)
    (progress : option (Q -> outcome unit)) (fuel : nat) (kw : text)
    (selected_domains : list text) (max_results : Z)
    (out : list row) (w : world) :
  scrape_social_media_async L S netloc B progress fuel kw selected_domains max_results
    = Some (Returned out, w) ->
  Forall (row_ok L) out.
Proof.
  intros H. apply scrape_rows in H as (links & w0 & H0 & ->).
  apply visit_all_rows_ok. rewrite H0. constructor.
Qed.

(** C6. When the calls raise errors only, the loop over the links returns
    normally whatever fails; the urls of the rows it adds are, in order, the
    links whose visit went through, and a link whose navigation or content
    capture raised is not among them. *)
Theorem per_link_failure_skips_and_keeps_order
    (L : PhoneLib) (S : PySet) (netloc : text -> outcome text) (B : browser)
    (progress : option (Q -> outcome unit)) (kw : text)
    (links : list text) (total : nat) (w : world) :
  errors_only netloc B progress ->
  exists w',
    visit_all L S netloc B progress kw 1 links total w = (Returned tt, w') /\
    map url (rows w') = map url (rows w) ++ map snd (visited netloc B 1 links) /\
    forall i link e,
      v_goto (visits B i link) = Raised e \/ v_content (visits B i link) = Raised e ->
      ~ In (i, link) (visited netloc B 1 links).
Proof.
  intros Herr.
  destruct (visit_all_effect L S netloc B progress Herr links kw 1 total w)
    as (w' & E & Hu & _).
  exists w'. repeat split; auto.
  intros i link e Hraise Hin. unfold visited in Hin.
  apply filter_In in Hin as (_ & Hok). cbn [fst snd] in Hok.
  unfold visit_ok in Hok.
  destruct Hraise as [R|R]; rewrite R in Hok; cbn in Hok;
    rewrite ?andb_false_r in Hok; discriminate.
Qed.


Lemma extraction_records_valid_witness : Forall (row_ok mobile_plan) demo_rows.
Proof.
  apply (extraction_records_valid mobile_plan ordered_set simple_netloc demo_browser
           (Some quiet_observer) 3 (txt "dental lab") [txt "linkedin.com"] 10
           demo_rows
           {| rows := demo_rows;
              log := [PageOpened 1; Printed link_a; PageOpened 2; PageClosed 2;
                      Reported (2 # 2)] |}).
  vm_compute. reflexivity.
Defined.

Lemma demo_errors_only progress :
  (forall observer q, progress = Some observer -> is_error (observer q)) ->
  errors_only simple_netloc demo_browser progress.
Proof.
  intros Hobs i link. cbn.
  repeat split; try (intros e H; discriminate H); try assumption.
  intros e H. destruct (i =? 1); [|discriminate H]. now injection H as <-.
Qed.

Lemma quiet_observer_errors observer q :
  Some quiet_observer = Some observer -> is_error (observer q).
Proof. intros [= <-] e H. discriminate H. Qed.

Lemma per_link_failure_skips_and_keeps_order_witness :
  exists w',
    visit_all mobile_plan ordered_set simple_netloc demo_browser (Some quiet_observer)
      (txt "dental lab") 1 [link_a; link_b] 2 empty_world = (Returned tt, w') /\
    map url (rows w') =
      map url (rows empty_world) ++ map snd (visited simple_netloc demo_browser 1 [link_a; link_b]) /\
    forall i link e,
      v_goto (visits demo_browser i link) = Raised e \/
      v_content (visits demo_browser i link) = Raised e ->
      ~ In (i, link) (visited simple_netloc demo_browser 1 [link_a; link_b]).
Proof.
  apply (per_link_failure_skips_and_keeps_order mobile_plan ordered_set simple_netloc
           demo_browser (Some quiet_observer) (txt "dental lab") [link_a; link_b] 2
           empty_world).
  apply demo_errors_only, quiet_observer_errors.
Defined.

(** C7. Navigation to the first of two links times out: its page was opened
    and is not closed when the page of the second link opens, nor when the
    loop ends; the page of the second link, whose visit goes through, is
    closed. *)
Theorem page_left_open_when_navigation_fails :
  log (snd (demo_visits None)) =
    [PageOpened 1; Printed link_a; PageOpened 2; PageClosed 2] /\
  still_open [PageOpened 1; Printed link_a] [] = [1] /\
  still_open (log (snd (demo_visits None))) [] = [1] /\
  ~ pages_closed_between_links (log (snd (demo_visits None))).
Proof.
  assert (E : log (snd (demo_visits None)) =
              [PageOpened 1; Printed link_a; PageOpened 2; PageClosed 2])
    by (vm_compute; reflexivity).
  rewrite E. repeat split.
  intros H.
  specialize (H [PageOpened 1; Printed link_a] 2 [PageClosed 2] eq_refl).
  discriminate H.
Qed.

(** C8. Navigation to the first of two links times out and an observer is
    supplied: the observer is called once in the whole run, after the second
    link; nothing is reported for the first link, between the diagnostic of
    its failure and the opening of the next page. *)
Theorem progress_not_reported_for_failed_link :
  log (snd (demo_visits (Some quiet_observer))) =
    [PageOpened 1; Printed link_a; PageOpened 2; PageClosed 2; Reported (2 # 2)] /\
  length (reported (log (snd (demo_visits (Some quiet_observer))))) = 1 /\
  ~ reports_every_link (log (snd (demo_visits (Some quiet_observer)))) 2.
Proof.
  assert (E : log (snd (demo_visits (Some quiet_observer))) =
              [PageOpened 1; Printed link_a; PageOpened 2; PageClosed 2;
               Reported (2 # 2)])
    by (vm_compute; reflexivity).
  rewrite E. repeat split.
  intros H. specialize (H 1 ltac:(lia)).
  cbn in H. destruct H as [H|[]]. discriminate H.
Qed.

(** ** Numbers the scan finds *)

Lemma rep_exact p k : forall ds prev rest,
  Forall (fun c => p c = true) ds ->
  rep p (length ds) (Some (length ds)) k prev (ds ++ rest) =
  k (last_char prev ds) rest.
Proof.
  induction ds as [|c ds IH]; intros prev rest H.
  - destruct rest as [|x rest]; cbn; [reflexivity|].
    now destruct (p x).
  - inversion H as [|? ? Hc Hds]; subst.
    cbn [length app rep pred option_map can_take]. rewrite Hc. cbn [andb].
    rewrite (IH (Some c) rest Hds), last_char_cons.
    now destruct (k (last_char (Some c) ds) rest).
Qed.

Lemma digit_is_word c : is_digit c = true -> is_word c = true.
Proof. destruct c as [[] [] [] [] [] [] [] []]; vm_compute; congruence. Qed.

Lemma is_6_9_not_plus c : is_6_9 c = true -> Ascii.eqb c "+" = false.
Proof. destruct c as [[] [] [] [] [] [] [] []]; vm_compute; congruence. Qed.

Lemma last_char_digits prev d ds :
  Forall (fun c => is_digit c = true) (d :: ds) ->
  word_opt (last_char prev (d :: ds)) = true.
Proof.
  revert prev d. induction ds as [|c ds IH]; intros prev d H.
  - inversion H; subst. simpl. now apply digit_is_word.
  - inversion H; subst. rewrite last_char_cons. now apply IH.
Qed.

(** A bare number between two non-word positions is matched whole. *)
Lemma match_at_bare prev n post :
  mobile10 n -> word_opt prev = false -> word_opt (hd_error post) = false ->
  match_at PHONE_RE prev (n ++ post) = Some 10.
Proof.
  intros (d & ds & -> & Hd & Hds & Hlen) Hprev Hpost.
  unfold match_at. cbn [PHONE_RE run app].
  unfold at_boundary at 1. cbn [hd_error word_opt]. rewrite Hprev.
  rewrite (digit_is_word d (is_6_9_digit d Hd)). cbn [xorb].
  rewrite (is_6_9_not_plus d Hd), Hd.
  replace (rep is_digit 9 (Some 9))
    with (rep is_digit (length ds) (Some (length ds))) by now rewrite Hlen.
  rewrite rep_exact by assumption. cbn [run].
  unfold at_boundary. rewrite Hpost.
  assert (W : word_opt (last_char (Some d) ds) = true).
  { rewrite <- (last_char_cons prev). apply last_char_digits.
    constructor; [now apply is_6_9_digit|assumption]. }
  rewrite W. cbn [xorb]. cbn [length]. rewrite length_app, Hlen.
  f_equal. lia.
Qed.

Lemma prefix_split {A} : forall (a b w rest : list A),
  a ++ b = w ++ rest -> length a <= length w ->
  exists w2, w = a ++ w2 /\ b = w2 ++ rest.
Proof.
  induction a as [|x a IH]; intros b w rest E Hlen; simpl in *.
  - exists w. auto.
  - destruct w as [|y w]; simpl in *; [lia|].
    injection E as -> E. apply IH in E as (w2 & -> & ->); [|lia].
    exists w2. auto.
Qed.

Lemma app_same_length {A} : forall (a c b d : list A),
  a ++ b = c ++ d -> length a = length c -> a = c /\ b = d.
Proof.
  induction a as [|x a IH]; intros [|y c] b d E Hlen; simpl in *;
    try discriminate; [auto|].
  injection E as -> E. apply IH in E as (-> & ->); auto.
Qed.

Lemma app_same_length_r {A} (a c b d : list A) :
  a ++ b = c ++ d -> length b = length d -> a = c /\ b = d.
Proof.
  intros E Hlen. apply app_same_length; [assumption|].
  apply (f_equal (@length A)) in E. rewrite !length_app in E. lia.
Qed.

Lemma mobile10_length n : mobile10 n -> length n = 10.
Proof. intros (d & ds & -> & _ & _ & Hlen). simpl. now rewrite Hlen. Qed.

Lemma mobile10_digits n : mobile10 n -> Forall (fun c => is_digit c = true) n.
Proof.
  intros (d & ds & -> & Hd & Hds & _). constructor; [now apply is_6_9_digit|assumption].
Qed.

(** A non-word character inside a raw match is its [+] or its separator. *)
Lemma phone_shape_split w a0 x b :
  phone_shape w -> w = a0 ++ x :: b -> is_word x = false ->
  (a0 = [] /\ exists b', b = "9"%char :: "1"%char :: b') \/
  (a0 = txt "+91" /\ is_dash_or_space x = true /\ mobile10 b).
Proof.
  intros (pre & d & ds & -> & Hp & Hd & Hds & Hlen) E Hx.
  assert (Hdig : Forall (fun c => is_digit c = true) (d :: ds))
    by (constructor; [now apply is_6_9_digit|assumption]).
  assert (Hno : ~ In x (d :: ds)).
  { intros Hin. rewrite Forall_forall in Hdig. apply Hdig, digit_is_word in Hin.
    congruence. }
  symmetry in E. apply app_eq_app in E as (l & [(Ea & Eb)|(Ea & Eb)]).
  - exfalso. apply Hno. rewrite Eb. apply in_or_app. right. simpl. auto.
  - destruct l as [|x' l'].
    + exfalso. apply Hno. simpl in Eb. rewrite <- Eb. simpl. auto.
    + injection Eb as <- ->.
      destruct Hp as [->|[->|(c & Hc & ->)]].
      * destruct a0; discriminate.
      * destruct a0 as [|a1 [|a2 [|a3 [|a4 a0]]]]; cbn in Ea;
          try discriminate Ea; injection Ea as <-; intros; subst;
          try (vm_compute in Hx; discriminate Hx).
        left. split; [reflexivity|]. eexists. reflexivity.
      * destruct a0 as [|a1 [|a2 [|a3 [|a4 [|a5 a0]]]]]; cbn in Ea;
          try discriminate Ea; injection Ea as <-; intros; subst;
          try (vm_compute in Hx; discriminate Hx).
        -- left. split; [reflexivity|]. eexists. reflexivity.
        -- right. split; [reflexivity|]. split; [assumption|].
           exists d, ds. auto.
Qed.

Lemma candidate_bare n :
  mobile10 n -> startswith (txt "91") n = false -> candidate_of n = txt "+91" ++ n.
Proof.
  intros Hn H91. unfold candidate_of.
  rewrite (strip_digits_all n (mobile10_digits n Hn)), H91, (mobile10_length n Hn).
  reflexivity.
Qed.

Lemma candidate_prefixed x n :
  is_dash_or_space x = true -> mobile10 n ->
  candidate_of (txt "+91" ++ x :: n) = txt "+91" ++ n.
Proof.
  intros Hx Hn. unfold candidate_of.
  change (txt "+91" ++ x :: n) with ("+"%char :: txt "91" ++ x :: n).
  unfold strip_non_digits. cbn [filter].
  change (is_digit "+") with false. cbv iota. rewrite filter_app. cbn [filter].
  rewrite (dash_or_space_not_digit x Hx).
  fold (strip_non_digits n). rewrite (strip_digits_all n (mobile10_digits n Hn)).
  reflexivity.
Qed.

(** The scan reaches a delimited number: whatever was matched before it, the
    number comes out bare or behind [+91] and a separator. *)
Lemma scan_finds n post :
  mobile10 n -> startswith (txt "91") n = false ->
  word_opt (hd_error post) = false ->
  forall pre prev skip,
    skip <= length pre -> word_opt (last_char prev pre) = false ->
    exists w, In w (scan PHONE_RE prev (pre ++ n ++ post) skip) /\
              candidate_of w = txt "+91" ++ n.
Proof.
  intros Hn H91 Hpost.
  induction pre as [|c pre IH]; intros prev skip Hskip Hprev.
  - destruct skip; [|simpl in Hskip; lia]. simpl in Hprev.
    pose proof (match_at_bare prev n post Hn Hprev Hpost) as M.
    pose proof (mobile10_length n Hn) as Hlen.
    exists n. split; [|now apply candidate_bare].
    cbn [app]. destruct Hn as (d & ds & -> & _).
    cbn [app scan]. cbn [app] in M. rewrite M. left.
    change (d :: ds ++ post) with ((d :: ds) ++ post).
    rewrite firstn_app, Hlen, Nat.sub_diag, firstn_O, app_nil_r.
    rewrite <- Hlen. apply firstn_all.
  - cbn [app scan]. rewrite last_char_cons in Hprev. cbn [length] in Hskip.
    destruct skip as [|k]; [|apply IH; [lia|assumption]].
    destruct (match_at PHONE_RE prev (c :: pre ++ n ++ post)) as [[|m]|] eqn:M;
      try (apply IH; [lia|assumption]).
    destruct (le_dec m (length pre)) as [Hm|Hm].
    { destruct (IH (Some c) m Hm Hprev) as (w & Hw & Hc).
      exists w. split; [right|]; assumption. }
    apply match_at_sound in M as (rest & E & Hlen & L).
    apply phone_lang in L as (Hshape & _).
    set (w := firstn (S m) (c :: pre ++ n ++ post)) in *.
    exists w. split; [left; reflexivity|].
    change (c :: pre ++ n ++ post) with ((c :: pre) ++ n ++ post) in E.
    apply prefix_split in E as (w2 & Ew & E2); [|rewrite Hlen; cbn [length]; lia].
    destruct (exists_last (l := c :: pre)) as (a0 & x & Ea); [discriminate|].
    assert (Hx : is_word x = false).
    { rewrite <- last_char_cons with (prev := prev) in Hprev.
      rewrite Ea, last_char_app in Hprev. exact Hprev. }
    rewrite Ea, <- app_assoc in Ew. cbn [app] in Ew.
    destruct (phone_shape_split w a0 x w2 Hshape Ew Hx)
      as [(-> & b' & ->)|(-> & Hsep & Hw2)].
    + exfalso. destruct Hn as (d & [|d2 ds] & -> & _ & _ & Hl); [discriminate|].
      cbn in E2. injection E2 as -> -> _. discriminate H91.
    + apply app_same_length in E2 as (-> & _);
        [|now rewrite (mobile10_length n Hn), (mobile10_length w2 Hw2)].
      rewrite Ew. now apply candidate_prefixed.
Qed.

(** C1, as stated, fails: a number behind a bare [91] is not found, nor is one
    with separators between its digits, and a number written in two surface
    forms comes out twice. *)
Lemma number_not_extracted_exactly_once :
  validate_indian_number mobile_plan (txt "+919876543210") = Returned true /\
  ~ extracted_once mobile_plan ordered_set
      (txt "Call 919876543210") (txt "9876543210") /\
  ~ extracted_once mobile_plan ordered_set
      (txt "Call 98765-43210") (txt "9876543210") /\
  ~ extracted_once mobile_plan ordered_set
      (txt "Call+91-9876543210 or 9876543210") (txt "9876543210").
Proof.
  split; [vm_compute; reflexivity|].
  repeat split; intros (es & ps & H & Hc); vm_compute in H;
    injection H as <- <-; vm_compute in Hc; discriminate Hc.
Qed.

(** The loop appends an accepted candidate once for each item it comes from. *)
Lemma clean_loop_count (L : PhoneLib) (c : text) :
  validate_indian_number L c = Returned true ->
  forall items acc out,
    clean_loop L items acc = Returned out ->
    count_occ text_dec out c =
      count_occ text_dec acc c +
      length (filter (fun w => text_eqb (candidate_of w) c) items).
Proof.
  intros Hv. induction items as [|ph items IH]; intros acc out H; simpl in H.
  - injection H as <-. simpl. lia.
  - cbn [filter]. destruct (text_eqb (candidate_of ph) c) eqn:E.
    + apply text_eqb_eq in E. rewrite E, Hv in H. simpl in H.
      apply IH in H. rewrite H, count_occ_app. cbn [count_occ length].
      destruct (text_dec c c); [lia|congruence].
    + destruct (validate_indian_number L (candidate_of ph)) as [ok|];
        simpl in H; [|discriminate].
      apply IH in H. rewrite H. destruct ok; [|reflexivity].
      rewrite count_occ_app. cbn [count_occ].
      destruct (text_dec (candidate_of ph) c) as [Heq|]; [|lia].
      apply text_eqb_eq in Heq. congruence.
Qed.

Lemma NoDup_all_same {A} (x : A) : forall l,
  NoDup l -> (forall y, In y l -> y = x) -> length l <= 1.
Proof.
  intros [|a [|b l]] Hnd Hall; simpl; try lia.
  exfalso. inversion Hnd as [|? ? Hnot _]; subst. apply Hnot.
  rewrite (Hall a), (Hall b); simpl; auto.
Qed.

(** C1, amended. A ten-digit number (first digit 6-9) that does not itself
    begin with 91, standing in the markup with no word character directly
    before or after it, and whose [+91] form the validator accepts, is in the
    phone output in that form, as many times as there are distinct raw match
    texts that normalize to it: exactly once when these are all one text (one
    surface form, however often it occurs), more often only when the number is
    matched in several surface forms. *)
Theorem delimited_mobile_number_extracted
    (L : PhoneLib) (S : PySet) (pre n post : text) :
  mobile10 n -> startswith (txt "91") n = false ->
  word_opt (last_char None pre) = false -> word_opt (hd_error post) = false ->
  validate_indian_number L (txt "+91" ++ n) = Returned true ->
  exists es ps,
    extract_contacts_from_html L S (pre ++ n ++ post) = Returned (es, ps) /\
    In (txt "+91" ++ n) ps /\
    count_occ text_dec ps (txt "+91" ++ n) =
      length (surface_forms S (pre ++ n ++ post) (txt "+91" ++ n)) /\
    ((exists w0, forall w, In w (findall PHONE_RE (pre ++ n ++ post)) ->
                   candidate_of w = txt "+91" ++ n -> w = w0) ->
     count_occ text_dec ps (txt "+91" ++ n) = 1).
Proof.
  intros Hn H91 Hpre Hpost Hv.
  destruct (extract_returns L S (pre ++ n ++ post)) as (es & ps & E).
  exists es, ps. split; [assumption|].
  unfold extract_contacts_from_html, obind in E.
  destruct (clean_loop L _ []) as [ps'|] eqn:C; [|discriminate].
  injection E as _ <-.
  pose proof (clean_loop_count L (txt "+91" ++ n) Hv _ _ _ C) as Hcount.
  cbn [count_occ Nat.add] in Hcount. fold (surface_forms S (pre ++ n ++ post)
    (txt "+91" ++ n)) in Hcount.
  destruct (scan_finds n post Hn H91 Hpost pre None 0 (Nat.le_0_l _) Hpre)
    as (w & Hw & Hc).
  assert (Hin : In w (surface_forms S (pre ++ n ++ post) (txt "+91" ++ n))).
  { apply filter_In. split; [now apply set_iter_In|now apply text_eqb_eq]. }
  assert (Hpos : 1 <= length (surface_forms S (pre ++ n ++ post) (txt "+91" ++ n))).
  { destruct (surface_forms S (pre ++ n ++ post) (txt "+91" ++ n));
      [destruct Hin|simpl; lia]. }
  split; [|split].
  - apply (count_occ_In text_dec). lia.
  - exact Hcount.
  - intros (w0 & Hone). rewrite Hcount.
    assert (Hle : length (surface_forms S (pre ++ n ++ post) (txt "+91" ++ n)) <= 1).
    { apply (NoDup_all_same w0).
      - apply NoDup_filter, set_iter_NoDup.
      - intros y Hy. apply filter_In in Hy as (Hy & Hcy).
        apply Hone; [now apply set_iter_In in Hy|now apply text_eqb_eq]. }
    lia.
Qed.

Lemma delimited_mobile_number_extracted_witness :
  exists es ps,
    extract_contacts_from_html mobile_plan ordered_set
      (txt "tel: " ++ txt "9876543210" ++ txt ", 9876543210 (24h)")
      = Returned (es, ps) /\
    In (txt "+91" ++ txt "9876543210") ps /\
    count_occ text_dec ps (txt "+91" ++ txt "9876543210") =
      length (surface_forms ordered_set
                (txt "tel: " ++ txt "9876543210" ++ txt ", 9876543210 (24h)")
                (txt "+91" ++ txt "9876543210")) /\
    ((exists w0, forall w,
        In w (findall PHONE_RE
                (txt "tel: " ++ txt "9876543210" ++ txt ", 9876543210 (24h)")) ->
        candidate_of w = txt "+91" ++ txt "9876543210" -> w = w0) ->
     count_occ text_dec ps (txt "+91" ++ txt "9876543210") = 1).
Proof.
  apply (delimited_mobile_number_extracted mobile_plan ordered_set
           (txt "tel: ") (txt "9876543210") (txt ", 9876543210 (24h)")).
  - exists "9"%char, (txt "876543210"). repeat split. repeat constructor.
  - reflexivity.
  - reflexivity.
  - reflexivity.
  - vm_compute. reflexivity.
Defined.

(** * Further properties of the code *)

(** ** Where the matches of a scan lie *)

(** A string [findall] returns stands in the scanned input, and is a match of
    the pattern at that place. *)
Lemma scan_occurs r : forall s prev skip w,
  In w (scan r prev s skip) ->
  exists a b, s = a ++ w ++ b /\ lang r (last_char prev a) w b.
Proof.
  induction s as [|c s IH]; intros prev skip w H; simpl in H; [tauto|].
  assert (Hrest : forall k, In w (scan r (Some c) s k) ->
            exists a b, c :: s = a ++ w ++ b /\ lang r (last_char prev a) w b).
  { intros k Hk. apply IH in Hk as (a & b & -> & L).
    exists (c :: a), b. split; [reflexivity|]. now rewrite last_char_cons. }
  destruct skip as [|k]; [|eauto].
  destruct (match_at r prev (c :: s)) as [[|n]|] eqn:E; eauto.
  destruct H as [<-|H]; [|eauto].
  apply match_at_sound in E as (after & E & _ & L).
  exists [], after. split; [exact E|exact L].
Qed.

Lemma findall_occurs r s w :
  In w (findall r s) ->
  exists a b, s = a ++ w ++ b /\ lang r (last_char None a) w b.
Proof. apply scan_occurs. Qed.

(** A match of the phone pattern ends in a digit, and begins with [+] or with
    a digit. *)
Lemma phone_shape_ends w prev :
  phone_shape w ->
  word_opt (last_char prev w) = true /\
  (word_opt (hd_error w) = true \/ hd_error w = Some "+"%char).
Proof.
  intros (pre & d & ds & -> & Hp & Hd & Hds & _).
  assert (Hdig : Forall (fun c => is_digit c = true) (d :: ds))
    by (constructor; [now apply is_6_9_digit|assumption]).
  split.
  - rewrite last_char_app. now apply last_char_digits.
  - destruct Hp as [->|[->|(c & _ & ->)]]; cbn; auto.
    left. now apply digit_is_word, is_6_9_digit.
Qed.

(** X4. A raw phone match is cut out at word boundaries: in the markup it is
    not followed by a word character, so it is never the beginning of a longer
    run of digits or letters; a match that begins with a digit is not preceded
    by a word character, and one that begins with [+] is preceded by one. *)
Theorem raw_phone_match_delimited (html w : text) :
  In w (findall PHONE_RE html) ->
  exists a b, html = a ++ w ++ b /\
    word_opt (hd_error b) = false /\
    (word_opt (hd_error w) = true -> word_opt (last_char None a) = false) /\
    (hd_error w = Some "+"%char -> word_opt (last_char None a) = true).
Proof.
  intros H. apply findall_occurs in H as (a & b & -> & L).
  apply phone_lang in L as (Hshape & Hstart & Hend).
  destruct (phone_shape_ends w (last_char None a) Hshape) as (Hlast & _).
  exists a, b. split; [reflexivity|].
  unfold at_boundary in Hstart, Hend. rewrite Hlast in Hend.
  assert (Hhd : hd_error (w ++ b) = hd_error w).
  { destruct Hshape as (pre & d & ds & -> & _). destruct pre; reflexivity. }
  rewrite Hhd in Hstart.
  repeat split.
  - now destruct (word_opt (hd_error b)).
  - intros Hw. rewrite Hw in Hstart. now destruct (word_opt (last_char None a)).
  - intros Hw. rewrite Hw in Hstart. cbn in Hstart.
    now destruct (word_opt (last_char None a)).
Qed.

Lemma raw_phone_match_delimited_witness :
  exists a b, txt "x+91-9876543210." = a ++ txt "+91-9876543210" ++ b /\
    word_opt (hd_error b) = false /\
    (word_opt (hd_error (txt "+91-9876543210")) = true ->
     word_opt (last_char None a) = false) /\
    (hd_error (txt "+91-9876543210") = Some "+"%char ->
     word_opt (last_char None a) = true).
Proof.
  apply (raw_phone_match_delimited (txt "x+91-9876543210.") (txt "+91-9876543210")).
  vm_compute. left. reflexivity.
Defined.

(** ** What the extractor hands out *)

Section ExtractorOutput.

Variable phonenumbers : PhoneLib.
Variable pyset : PySet.

Lemma clean_loop_from : forall items acc out p,
  clean_loop phonenumbers items acc = Returned out -> In p out ->
  In p acc \/
  exists w, In w items /\ candidate_of w = p /\
            validate_indian_number phonenumbers p = Returned true.
Proof.
  induction items as [|ph items IH]; intros acc out p H Hp; simpl in H.
  - injection H as <-. auto.
  - destruct (validate_indian_number phonenumbers (candidate_of ph)) as [ok|] eqn:V;
      simpl in H; [|discriminate].
    destruct (IH _ _ p H Hp) as [Hacc|(w & Hw & Hc & Hv)].
    + destruct ok; [|auto].
      apply in_app_or in Hacc as [Hacc|[<-|[]]]; [auto|].
      right. exists ph. simpl. auto.
    + right. exists w. simpl. auto.
Qed.

Lemma clean_loop_length : forall items acc out,
  clean_loop phonenumbers items acc = Returned out ->
  length out <= length acc + length items.
Proof.
  induction items as [|ph items IH]; intros acc out H; simpl in H.
  - injection H as <-. simpl. lia.
  - destruct (validate_indian_number phonenumbers (candidate_of ph)) as [ok|];
      simpl in H; [|discriminate].
    apply IH in H. destruct ok; [rewrite length_app in H|]; simpl in *; lia.
Qed.

End ExtractorOutput.

(** X1. The email output holds each address the pattern finds in the markup
    once, however often it occurs, and nothing else; every address it holds
    stands in the markup and has the shape local-part [@] domain [.] letters. *)
Theorem emails_are_the_distinct_matches (L : PhoneLib) (S : PySet) (html : text) :
  exists es ps,
    extract_contacts_from_html L S html = Returned (es, ps) /\
    NoDup es /\
    (forall e, In e es <-> In e (findall EMAIL_RE html)) /\
    (forall e, In e es -> email_syntax e /\ exists a b, html = a ++ e ++ b).
Proof.
  destruct (extract_returns L S html) as (es & ps & E).
  exists es, ps. split; [assumption|].
  unfold extract_contacts_from_html, obind in E.
  destruct (clean_loop L _ []) as [ps'|]; [|discriminate]. injection E as <- _.
  split; [apply set_iter_NoDup|]. split; [apply set_iter_In|].
  intros e He. apply set_iter_In, findall_occurs in He as (a & b & -> & Hl).
  split; [eapply email_lang; eassumption|eauto].
Qed.

Lemma extract_phones_exact (L : PhoneLib) (S : PySet) (html : text) :
  exists es ps,
    extract_contacts_from_html L S html = Returned (es, ps) /\
    (forall p, In p ps <->
       exists w, In w (findall PHONE_RE html) /\ candidate_of w = p /\
                 validate_indian_number L p = Returned true) /\
    length ps <= length (set_iter S (findall PHONE_RE html)).
Proof.
  destruct (extract_returns L S html) as (es & ps & E).
  exists es, ps. split; [assumption|].
  unfold extract_contacts_from_html, obind in E.
  destruct (clean_loop L _ []) as [ps'|] eqn:C; [|discriminate].
  injection E as _ <-. split; [|exact (clean_loop_length L _ _ _ C)].
  intros p. split.
  - intros Hp. destruct (clean_loop_from L _ _ _ p C Hp) as [[]|(w & Hw & Hc & Hv)].
    exists w. rewrite <- (set_iter_In S). auto.
  - intros (w & Hw & <- & Hv).
    eapply clean_loop_complete; [eassumption| |assumption].
    now apply set_iter_In.
Qed.

(** X2. The phone output holds exactly the candidates of the raw matches that
    the validator accepts: nothing is added, nothing accepted is dropped, and
    there are at most as many entries as distinct raw matches. *)
Theorem phones_are_the_accepted_candidates (L : PhoneLib) (S : PySet) (html : text) :
  exists es ps,
    extract_contacts_from_html L S html = Returned (es, ps) /\
    (forall p, In p ps <->
       exists w, In w (findall PHONE_RE html) /\ candidate_of w = p /\
                 validate_indian_number L p = Returned true) /\
    length ps <= length (set_iter S (findall PHONE_RE html)).
Proof. apply extract_phones_exact. Qed.



(** ** The clauses of the query *)

Lemma join_contains sep x : forall parts,
  In x parts -> exists a b, join sep parts = a ++ x ++ b.
Proof.
  induction parts as [|p ps IH]; intros H; [destruct H|].
  destruct ps as [|q ps].
  - destruct H as [->|[]]. exists [], []. cbn. now rewrite app_nil_r.
  - destruct H as [->|H].
    + exists [], (sep ++ join sep (q :: ps)). reflexivity.
    + destruct (IH H) as (a & b & E).
      exists (p ++ sep ++ a), b.
      change (join sep (p :: q :: ps)) with (p ++ sep ++ join sep (q :: ps)).
      rewrite E, <- !app_assoc. reflexivity.
Qed.

Lemma infix_later (p s x : text) :
  (exists a b, s = a ++ x ++ b) -> exists a b, p ++ s = a ++ x ++ b.
Proof. intros (a & b & ->). exists (p ++ a), b. now rewrite app_assoc. Qed.

Lemma infix_first (s q x : text) :
  (exists a b, s = a ++ x ++ b) -> exists a b, s ++ q = a ++ x ++ b.
Proof. intros (a & b & ->). exists a, (b ++ q). now rewrite <- !app_assoc. Qed.

Lemma infix_head (x1 x2 x3 rest : text) :
  exists a b, x1 ++ x2 ++ x3 ++ rest = a ++ (x1 ++ x2 ++ x3) ++ b.
Proof. exists [], rest. cbn [app]. now rewrite <- !app_assoc. Qed.

Lemma build_query_shape (kw : text) (selected_domains : list text) :
  (exists a b, build_query kw selected_domains = a ++ (dq ++ kw ++ dq) ++ b) /\
  (forall d, In d selected_domains ->
     exists a b, build_query kw selected_domains = a ++ (txt "site:" ++ d) ++ b).
Proof.
  unfold build_query. cbv zeta. split.
  - do 3 apply infix_later. apply infix_head.
  - intros d Hd. apply infix_later, infix_first, join_contains, in_map_iff. eauto.
Qed.

(** X5. Whatever the keyword and the domains, the query holds the keyword in
    double quotes, a [site:] term for every selected domain and every regional
    place name in double quotes; with no domain selected it begins with the
    empty clause [()]. *)
Theorem build_query_clauses (kw : text) (selected_domains : list text) :
  (exists a b, build_query kw selected_domains = a ++ (dq ++ kw ++ dq) ++ b) /\
  (forall d, In d selected_domains ->
     exists a b, build_query kw selected_domains = a ++ (txt "site:" ++ d) ++ b) /\
  (forall k, In k INDIAN_KEYWORDS ->
     exists a b, build_query kw selected_domains = a ++ (dq ++ k ++ dq) ++ b) /\
  (exists b, build_query kw [] = txt "() " ++ dq ++ kw ++ dq ++ b).
Proof.
  unfold build_query. cbv zeta. repeat split.
  - do 3 apply infix_later. apply infix_head.
  - intros d Hd. apply infix_later, infix_first, join_contains, in_map_iff. eauto.
  - intros k Hk. do 7 apply infix_later.
    apply infix_first, join_contains, in_map_iff. eauto.
  - eexists. reflexivity.
Qed.

(** ** What the collector keeps and where it stops *)

Section CollectorReach.

Variable selected_domains : list text.
Variable max_results : Z.

Local Abbreviation full := (reached max_results).
Local Abbreviation page_loop := (collect_page selected_domains max_results).
Local Abbreviation while_loop := (collect_links selected_domains max_results).
Local Abbreviation matching := (on_selected_domain selected_domains).

Lemma wanted_complete h links :
  h <> [] -> matching h -> ~ In h links ->
  wanted selected_domains h links = true.
Proof.
  intros Hh (d & Hd & Hsub) Hn. unfold wanted.
  destruct h as [|c h]; [congruence|].
  apply andb_true_iff. split.
  - apply existsb_exists. exists d. split; [assumption|]. now apply str_in_spec.
  - apply negb_true_iff. destruct (mem (c :: h) links) eqn:M; [|reflexivity].
    apply mem_In in M. contradiction.
Qed.

(** One page adds links behind the ones it was given, each the [href] of one
    of its anchors. *)
Lemma collect_page_extends : forall rs links out,
  page_loop rs links = Returned out ->
  exists new, out = links ++ new /\
    Forall (fun h => In (Returned (Some h)) rs) new.
Proof.
  induction rs as [|r rs IH]; intros links out H; simpl in H.
  - injection H as <-. exists []. now rewrite app_nil_r.
  - assert (Hrest : forall l, page_loop rs l = Returned out ->
              forall pre, l = links ++ pre ->
              Forall (fun h => In (Returned (Some h)) (r :: rs)) pre ->
              exists new, out = links ++ new /\
                Forall (fun h => In (Returned (Some h)) (r :: rs)) new).
    { intros l Hl pre -> Hpre. apply IH in Hl as (new & -> & Hnew).
      exists (pre ++ new). rewrite app_assoc. split; [reflexivity|].
      apply Forall_app. split; [assumption|].
      eapply Forall_impl; [|exact Hnew]. simpl. auto. }
    destruct r as [[h|]|]; simpl in H; try discriminate.
    + destruct (wanted selected_domains h links).
      * destruct (full (links ++ [h])).
        -- injection H as <-. exists [h]. split; [reflexivity|].
           constructor; [simpl; auto|constructor].
        -- apply (Hrest _ H [h]); [reflexivity|].
           constructor; [simpl; auto|constructor].
      * apply (Hrest _ H []); [now rewrite app_nil_r|constructor].
    + apply (Hrest _ H []); [now rewrite app_nil_r|constructor].
Qed.

(** Unless the cap is reached, a page loses no matching link. *)
Lemma collect_page_keeps : forall rs links out,
  page_loop rs links = Returned out -> full out = false ->
  forall h, In (Returned (Some h)) rs -> h <> [] -> matching h -> In h out.
Proof.
  induction rs as [|r rs IH]; intros links out H Hfull h Hin Hh Hm; [destruct Hin|].
  simpl in H.
  assert (Hkeep : forall l, page_loop rs l = Returned out ->
            forall x, In x l -> In x out).
  { intros l Hl x Hx. apply collect_page_extends in Hl as (new & -> & _).
    apply in_or_app. auto. }
  destruct r as [[h0|]|]; simpl in H; try discriminate.
  - destruct (wanted selected_domains h0 links) eqn:W.
    + destruct (full (links ++ [h0])) eqn:F.
      * injection H as <-. congruence.
      * destruct Hin as [[= ->]|Hin]; [|eauto].
        apply (Hkeep _ H). apply in_or_app. simpl. auto.
    + destruct Hin as [[= ->]|Hin]; [|eauto].
      apply (Hkeep _ H).
      destruct (in_dec text_dec h links) as [Hl|Hl]; [assumption|].
      rewrite (wanted_complete h links Hh Hm Hl) in W. discriminate.
  - destruct Hin as [[=]|Hin]. eauto.
Qed.

Lemma collect_links_extends : forall fuel pages n links out,
  while_loop fuel pages n links = Some (Returned out) ->
  exists new, out = links ++ new /\
    Forall (fun h => exists m rs, n <= m /\ anchors (pages m) = Returned rs /\
                                  In (Returned (Some h)) rs) new.
Proof.
  induction fuel as [|fuel IH]; intros pages n links out H; simpl in H;
    [discriminate|].
  destruct (full links); [injection H as <-; exists []; now rewrite app_nil_r|].
  destruct (anchors (pages n)) as [rs|] eqn:A; [|discriminate].
  destruct (page_loop rs links) as [links'|] eqn:P; [|discriminate].
  apply collect_page_extends in P as (new1 & -> & H1).
  assert (H1' : Forall (fun h => exists m rs, n <= m /\
                  anchors (pages m) = Returned rs /\ In (Returned (Some h)) rs) new1).
  { eapply Forall_impl; [|exact H1]. intros h Hh. exists n, rs. auto. }
  destruct (next_btn (pages n)) as [found|]; [|discriminate].
  destruct (negb found || full (links ++ new1)).
  - injection H as <-. eauto.
  - destruct (obind (next_click (pages n)) (fun _ => next_wait (pages n)));
      [|discriminate].
    apply IH in H as (new2 & -> & H2).
    exists (new1 ++ new2). rewrite app_assoc. split; [reflexivity|].
    apply Forall_app. split; [assumption|].
    eapply Forall_impl; [|exact H2].
    intros h (m & rs' & Hm & Hrs & Hin). exists m, rs'. split; [lia|auto].
Qed.

Lemma collect_links_short : forall fuel pages n links out,
  while_loop fuel pages n links = Some (Returned out) -> full out = false ->
  exists last, n <= last /\ next_btn (pages last) = Returned false /\
    (forall m, n <= m < last -> next_btn (pages m) = Returned true) /\
    forall m rs h, n <= m <= last -> anchors (pages m) = Returned rs ->
      In (Returned (Some h)) rs -> h <> [] -> matching h -> In h out.
Proof.
  induction fuel as [|fuel IH]; intros pages n links out H Hfull; simpl in H;
    [discriminate|].
  destruct (full links) eqn:F; [injection H as <-; congruence|].
  destruct (anchors (pages n)) as [rs|] eqn:A; [|discriminate].
  destruct (page_loop rs links) as [links'|] eqn:P; [|discriminate].
  destruct (next_btn (pages n)) as [found|] eqn:N; [|discriminate].
  destruct (negb found || full links') eqn:Stop.
  - injection H as <-. rewrite Hfull, orb_false_r in Stop.
    apply negb_true_iff in Stop as ->.
    exists n. split; [lia|]. split; [assumption|]. split; [intros; lia|].
    intros m rs' h Hm Hrs Hin Hh Hmatch. assert (m = n) as -> by lia.
    rewrite A in Hrs. injection Hrs as <-.
    eapply collect_page_keeps; eassumption.
  - apply orb_false_iff in Stop as (Hfound & F').
    apply negb_false_iff in Hfound as ->.
    destruct (obind (next_click (pages n)) (fun _ => next_wait (pages n)));
      [|discriminate].
    pose proof (collect_links_extends _ _ _ _ _ H) as (new & Hout & _).
    apply IH in H as (last & Hlast & Hno & Hyes & Hall); [|assumption].
    exists last. split; [lia|]. split; [assumption|]. split.
    + intros m Hm. destruct (Nat.eq_dec m n) as [->|]; [assumption|].
      apply Hyes. lia.
    + intros m rs' h Hm Hrs Hin Hh Hmatch.
      destruct (Nat.eq_dec m n) as [->|].
      * rewrite A in Hrs. injection Hrs as <-. rewrite Hout.
        apply in_or_app. left. eapply collect_page_keeps; eassumption.
      * apply (Hall m rs' h); auto. lia.
Qed.

(** The pages a returning loop walked: up to a page [last], every page before
    it with a next-page control and a list not yet full, [last] without the
    control or with the list full there; the links added before [last] are
    anchors of those earlier pages, the rest anchors of [last]. *)
Lemma collect_links_walk : forall fuel pages n links out,
  while_loop fuel pages n links = Some (Returned out) -> full links = false ->
  exists last before at_last rs,
    n <= last /\ out = links ++ before ++ at_last /\
    full (links ++ before) = false /\
    (forall m, n <= m < last -> next_btn (pages m) = Returned true) /\
    (next_btn (pages last) = Returned false \/ full out = true) /\
    Forall (fun h => exists m rs', n <= m < last /\
                       anchors (pages m) = Returned rs' /\
                       In (Returned (Some h)) rs') before /\
    anchors (pages last) = Returned rs /\
    Forall (fun h => In (Returned (Some h)) rs) at_last.
Proof.
  induction fuel as [|fuel IH]; intros pages n links out H Hfull; simpl in H;
    [discriminate|].
  rewrite Hfull in H.
  destruct (anchors (pages n)) as [rs|] eqn:A; [|discriminate].
  destruct (page_loop rs links) as [links'|] eqn:P; [|discriminate].
  apply collect_page_extends in P as (new1 & -> & H1).
  destruct (next_btn (pages n)) as [found|] eqn:N; [|discriminate].
  destruct (negb found || full (links ++ new1)) eqn:Stop.
  - injection H as <-.
    exists n, [], new1, rs. cbn [app]. rewrite app_nil_r.
    repeat split; auto; try lia.
    apply orb_true_iff in Stop as [Hf|Hf]; [left|right; exact Hf].
    apply negb_true_iff in Hf. now subst.
  - apply orb_false_iff in Stop as (Hfound & F').
    apply negb_false_iff in Hfound as ->.
    destruct (obind (next_click (pages n)) (fun _ => next_wait (pages n)));
      [|discriminate].
    apply IH in H as (last & before & at_last & rs' & Hle & -> & Hb & Hyes &
                      Hstop & Hbefore & Hrs & Hat); [|assumption].
    exists last, (new1 ++ before), at_last, rs'.
    rewrite <- !app_assoc in *. repeat split; auto; try lia.
    + intros m Hm. destruct (Nat.eq_dec m n) as [->|]; [assumption|].
      apply Hyes. lia.
    + apply Forall_app. split.
      * eapply Forall_impl; [|exact H1]. intros h Hh. exists n, rs.
        repeat split; auto; lia.
      * eapply Forall_impl; [|exact Hbefore].
        intros h (m & r0 & Hm & Hr0 & Hin). exists m, r0.
        repeat split; auto; lia.
Qed.

End CollectorReach.

(** X6. The links the collector returns are [href] values of anchors of the
    results pages it walked, and of no other page: either the cap is reached
    at once and it returns no link, or there is a last page, reached through
    the next-page control of every page before it while the list was not yet
    full, and without that control or with the list full there; the links of
    the list are, in order, anchors of the pages before the last one and then
    anchors of the last one. *)
Theorem collected_links_come_from_anchors
    (selected_domains : list text) (max_results : Z) (fuel : nat)
    (pages : nat -> results_page) (links : list text) :
  collect_links selected_domains max_results fuel pages 0 [] = Some (Returned links) ->
  (reached max_results [] = true /\ links = []) \/
  exists last before at_last rs,
    links = before ++ at_last /\
    reached max_results before = false /\
    (forall m, m < last -> next_btn (pages m) = Returned true) /\
    (next_btn (pages last) = Returned false \/ reached max_results links = true) /\
    Forall (fun h => exists m rs', m < last /\ anchors (pages m) = Returned rs' /\
                                   In (Returned (Some h)) rs') before /\
    anchors (pages last) = Returned rs /\
    Forall (fun h => In (Returned (Some h)) rs) at_last.
Proof.
  intros H. destruct (reached max_results []) eqn:F.
  - left. split; [reflexivity|].
    destruct fuel as [|fuel]; [discriminate|]. simpl in H. rewrite F in H.
    now injection H as <-.
  - right.
    apply collect_links_walk in H
      as (last & before & at_last & rs & _ & -> & Hb & Hyes & Hstop & Hbefore &
          Hrs & Hat); [|assumption].
    exists last, before, at_last, rs. cbn [app] in *. repeat split; auto.
    + intros m Hm. apply Hyes. lia.
    + eapply Forall_impl; [|exact Hbefore].
      intros h (m & r0 & Hm & Hr0 & Hin). exists m, r0. repeat split; auto; lia.
Qed.

Lemma collected_links_come_from_anchors_witness :
  (reached 10 [] = true /\ [link_a; link_b] = []) \/
  exists last before at_last rs,
    [link_a; link_b] = before ++ at_last /\
    reached 10 before = false /\
    (forall m, m < last -> next_btn (results demo_browser m) = Returned true) /\
    (next_btn (results demo_browser last) = Returned false \/
     reached 10 [link_a; link_b] = true) /\
    Forall (fun h => exists m rs', m < last /\
                       anchors (results demo_browser m) = Returned rs' /\
                       In (Returned (Some h)) rs') before /\
    anchors (results demo_browser last) = Returned rs /\
    Forall (fun h => In (Returned (Some h)) rs) at_last.
Proof.
  apply (collected_links_come_from_anchors [txt "linkedin.com"] 10 3
           (results demo_browser) [link_a; link_b]).
  vm_compute. reflexivity.
Defined.

(** X7. When the collector returns fewer than [max_results] links, pagination
    was exhausted: it walked the pages up to one without next-page control,
    every page before that one had the control, and every non-empty [href] on
    those pages that contains a selected domain is in the result. *)
Theorem short_collection_is_exhaustive
    (selected_domains : list text) (max_results : Z) (fuel : nat)
    (pages : nat -> results_page) (links : list text) :
  collect_links selected_domains max_results fuel pages 0 [] = Some (Returned links) ->
  (Z.of_nat (length links) < max_results)%Z ->
  exists last, next_btn (pages last) = Returned false /\
    (forall m, m < last -> next_btn (pages m) = Returned true) /\
    forall m rs h, m <= last -> anchors (pages m) = Returned rs ->
      In (Returned (Some h)) rs -> h <> [] ->
      on_selected_domain selected_domains h -> In h links.
Proof.
  intros H Hlen.
  apply collect_links_short in H as (last & _ & Hno & Hyes & Hall).
  - exists last. split; [assumption|]. split.
    + intros m Hm. apply Hyes. lia.
    + intros m rs h Hm. apply Hall. lia.
  - unfold reached. now apply Z.leb_gt.
Qed.

Lemma short_collection_is_exhaustive_witness :
  exists last, next_btn (results demo_browser last) = Returned false /\
    (forall m, m < last -> next_btn (results demo_browser m) = Returned true) /\
    forall m rs h, m <= last -> anchors (results demo_browser m) = Returned rs ->
      In (Returned (Some h)) rs -> h <> [] ->
      on_selected_domain [txt "linkedin.com"] h -> In h [link_a; link_b].
Proof.
  apply (short_collection_is_exhaustive [txt "linkedin.com"] 10 3
           (results demo_browser) [link_a; link_b]).
  - vm_compute. reflexivity.
  - vm_compute. reflexivity.
Defined.

(** ** What a run leaves behind *)

Lemma still_open_app l1 : forall l2 open,
  still_open (l1 ++ l2) open = still_open l2 (still_open l1 open).
Proof.
  induction l1 as [|e l1 IH]; intros l2 open; [reflexivity|].
  destruct e; simpl; apply IH.
Qed.

Lemma close_last i : forall open,
  ~ In i open -> filter (fun j => negb (j =? i)) (open ++ [i]) = open.
Proof.
  induction open as [|j open IH]; intros Hn; simpl.
  - now rewrite Nat.eqb_refl.
  - destruct (j =? i) eqn:E.
    + apply Nat.eqb_eq in E. exfalso. apply Hn. simpl. auto.
    + simpl. f_equal. apply IH. intros H. apply Hn. simpl. auto.
Qed.

Section RunFacts.

Variable phonenumbers : PhoneLib.
Variable pyset : PySet.
Variable netloc : text -> outcome text.
Variable B : browser.
Variable progress : option (Q -> outcome unit).

Local Abbreviation body := (visit_link phonenumbers pyset netloc B progress).
Local Abbreviation loop := (visit_all phonenumbers pyset netloc B progress).
Local Abbreviation run :=
  (scrape_social_media_async phonenumbers pyset netloc B progress).

(** The end of a case of [visit_step_trace]: the step is computed, the row
    and the pages are read off. *)
Ltac step_done i :=
  do 2 eexists; split; [reflexivity|]; cbn [rows log]; split;
  [ first [ left; reflexivity
          | right; eexists; repeat split; (reflexivity || eassumption) ]
  | let open := fresh "open" in let Hn := fresh "Hn" in
    intros open Hn; rewrite ?still_open_app; cbn [still_open];
    first [ reflexivity | apply (close_last i _ Hn) ] ].

(** One turn of the loop: at most one row is added, for this link and keyword,
    and the page of the link stays open exactly when it [leaks]. *)
Lemma visit_step_trace kw i link total w :
  exists o w',
    try_except_Exception (body kw i link total) (fun _ => emit (Printed link)) w
      = (o, w') /\
    (rows w' = rows w \/
     exists r, rows w' = rows w ++ [r] /\ url r = link /\ keyword r = kw /\
               netloc link = Returned (domain r)) /\
    forall open, ~ In i (still_open (log w) open) ->
      still_open (log w') open =
        if leaks B i link then still_open (log w) open ++ [i]
        else still_open (log w) open.
Proof.
  unfold leaks, try_except_Exception, visit_link, bind, call, emit, append_row, ret.
  cbn [rows log].
  destruct (v_new_page (visits B i link)) as [[]|e1]; cbn.
  2:{ destruct (is_Exception e1); step_done i. }
  destruct (v_goto (visits B i link)) as [[]|e2]; cbn.
  2:{ destruct (is_Exception e2); step_done i. }
  destruct (v_wait (visits B i link)) as [[]|e3]; cbn.
  2:{ destruct (is_Exception e3); step_done i. }
  destruct (v_content (visits B i link)) as [html|e4]; cbn.
  2:{ destruct (is_Exception e4); step_done i. }
  destruct (v_close (visits B i link)) as [[]|e5]; cbn.
  2:{ destruct (is_Exception e5); step_done i. }
  destruct (extract_contacts_from_html phonenumbers pyset html) as [c|e6]; cbn.
  2:{ destruct (is_Exception e6); step_done i. }
  destruct (netloc link) as [dom|e7] eqn:N; cbn.
  2:{ destruct (is_Exception e7); step_done i. }
  destruct progress as [observer|]; [|step_done i].
  destruct (py_div i total) as [q|e8]; cbn.
  2:{ destruct (is_Exception e8); step_done i. }
  destruct (observer q) as [[]|e9]; cbn; [step_done i|].
  destruct (is_Exception e9); step_done i.
Qed.

(** The urls of the rows a loop adds are links of its list, each at most once
    when the list has no duplicates, and the rows carry the keyword and the
    host of their link. *)
Lemma visit_all_rows : forall links kw i total w,
  exists added,
    rows (snd (loop kw i links total w)) = rows w ++ added /\
    length added <= length links /\
    (NoDup links -> NoDup (map url added)) /\
    Forall (fun r => In (url r) links /\ keyword r = kw /\
                     netloc (url r) = Returned (domain r)) added.
Proof.
  induction links as [|link links IH]; intros kw i total w.
  - exists []. cbn. rewrite app_nil_r. repeat split; auto; constructor.
  - cbn [visit_all]. unfold bind at 1.
    destruct (visit_step_trace kw i link total w) as (o & w1 & -> & Hrow & _).
    assert (Hone : exists first,
              rows w1 = rows w ++ first /\ length first <= 1 /\
              Forall (fun r => url r = link /\ keyword r = kw /\
                               netloc (url r) = Returned (domain r)) first).
    { destruct Hrow as [->|(r & -> & Hu & Hk & Hn)].
      - exists []. rewrite app_nil_r. repeat split; auto.
      - exists [r]. repeat split; auto. constructor; [|constructor].
        rewrite Hu. auto. }
    destruct Hone as (first & E1 & L1 & F1).
    destruct o as [[]|e].
    + destruct (IH kw (S i) total w1) as (added & -> & L2 & N2 & F2).
      exists (first ++ added). rewrite E1, app_assoc. split; [reflexivity|].
      rewrite length_app. cbn [length]. split; [lia|]. split.
      * intros Hnd. inversion Hnd as [|? ? Hnot Hnd']; subst.
        rewrite map_app. apply NoDup_app.
        -- destruct first as [|r [|r' first]]; cbn in *;
             [constructor|constructor; [tauto|constructor]|lia].
        -- auto.
        -- intros u Hu1 Hu2. apply in_map_iff in Hu1 as (r1 & <- & Hr1).
           apply in_map_iff in Hu2 as (r2 & E & Hr2).
           rewrite Forall_forall in F1, F2.
           destruct (F1 r1 Hr1) as (U1 & _). destruct (F2 r2 Hr2) as (U2 & _).
           apply Hnot. rewrite <- U1, <- E. exact U2.
      * apply Forall_app. split.
        -- eapply Forall_impl; [|exact F1]. cbn. intros r (-> & ? & ?). auto.
        -- eapply Forall_impl; [|exact F2]. cbn. intros r (? & ? & ?). auto.
    + exists first. cbn [snd]. split; [assumption|]. cbn [length].
      split; [lia|]. split.
      * intros _. destruct first as [|r [|r' first]]; cbn in *;
          [constructor|constructor; [tauto|constructor]|lia].
      * eapply Forall_impl; [|exact F1]. cbn. intros r (-> & ? & ?). auto.
Qed.

(** When only errors are raised, the pages still open after the loop are
    those of the links that [leaks] singles out. *)
Lemma visit_all_pages : errors_only netloc B progress ->
  forall links kw i total w open,
    Forall (fun j => j < i) (still_open (log w) open) ->
    still_open (log (snd (loop kw i links total w))) open =
      still_open (log w) open ++
      map fst (filter (fun p => leaks B (fst p) (snd p)) (enumerate i links)).
Proof.
  intros Herr.
  induction links as [|link links IH]; intros kw i total w open Hlt.
  - cbn. now rewrite app_nil_r.
  - cbn [visit_all enumerate filter fst snd]. unfold bind at 1.
    destruct (visit_step_trace kw i link total w) as (o & w1 & E & _ & Hopen).
    destruct (visit_step_effect phonenumbers pyset netloc B progress
                kw i link total w) as (o' & w1' & E' & _ & Ho).
    rewrite E in E'. injection E' as <- <-. rewrite E, (Ho Herr).
    assert (Hn : ~ In i (still_open (log w) open)).
    { intros Hin. rewrite Forall_forall in Hlt. apply Hlt in Hin. lia. }
    specialize (Hopen open Hn).
    rewrite IH.
    + rewrite Hopen. destruct (leaks B i link); cbn [map fst];
        [now rewrite <- app_assoc|reflexivity].
    + rewrite Hopen. destruct (leaks B i link).
      * apply Forall_app. split.
        -- eapply Forall_impl; [|exact Hlt]. cbn. lia.
        -- constructor; [lia|constructor].
      * eapply Forall_impl; [|exact Hlt]. cbn. lia.
Qed.

Lemma handle_consent_returns html : handle_consent B html = Returned tt.
Proof.
  unfold handle_consent, try_except, obind.
  destruct (_ || _); [|reflexivity].
  destruct (agree_click B) as [[]|]; [|reflexivity].
  now destruct (agree_wait B) as [[]|].
Qed.

(** A run that returns went through the collector and the loop. *)
Lemma run_returned fuel kw selected_domains max_results out w :
  run fuel kw selected_domains max_results = Some (Returned out, w) ->
  exists links,
    collect_links selected_domains max_results fuel (results B) 0 []
      = Some (Returned links) /\
    out = rows (snd (loop kw 1 links (length links) empty_world)).
Proof.
  unfold scrape_social_media_async, bind, call, ret.
  destruct (launch B); [|discriminate].
  destruct (search_new_page B); [|discriminate].
  destruct (search_goto B _); [|discriminate].
  destruct (search_content B); [|discriminate].
  destruct (handle_consent B _); [|discriminate].
  destruct (collect_links _ _ _ _ _ _) as [[links|]|]; try discriminate.
  intros H. exists links. split; [reflexivity|]. fold empty_world in H |- *.
  destruct (loop kw 1 links (length links) empty_world) as [[[]|] w1];
    [|discriminate].
  destruct (browser_close B); [|discriminate].
  cbn. now injection H as <- _.
Qed.

End RunFacts.

Lemma collect_from_empty selected_domains max_results fuel pages links :
  collect_links selected_domains max_results fuel pages 0 [] = Some (Returned links) ->
  (Z.of_nat (length links) <= Z.max 0 max_results)%Z /\ NoDup links /\
  Forall (on_selected_domain selected_domains) links.
Proof.
  intros H. destruct (Z.le_gt_cases 0 max_results) as [Hmax|Hmax].
  - apply collect_links_inv in H as (Hlen & Hnd & Hall).
    + repeat split; auto. lia.
    + repeat split; simpl; [lia|constructor|constructor].
  - destruct fuel as [|fuel]; [discriminate|]. simpl in H.
    unfold reached in H. simpl in H.
    destruct (max_results <=? 0)%Z eqn:E; [|apply Z.leb_gt in E; lia].
    injection H as <-. repeat split; simpl; [lia|constructor|constructor].
Qed.

(** X8. A run that returns hands out at most [max_results] records (none when
    [max_results] is zero or negative), no two of them for the same url; each
    record carries the keyword of the run, a url that contains a selected
    domain, and as its domain what [urlparse] gives for that url. *)
Theorem run_records_bounded
    (L : PhoneLib) (S : PySet) (netloc : text -> outcome text) (B : browser)
    (progress : option (Q -> outcome unit)) (fuel : nat) (kw : text)
    (selected_domains : list text) (max_results : Z)
    (out : list row) (w : world) :
  scrape_social_media_async L S netloc B progress fuel kw selected_domains max_results
    = Some (Returned out, w) ->
  (Z.of_nat (length out) <= Z.max 0 max_results)%Z /\
  NoDup (map url out) /\
  Forall (fun r => keyword r = kw /\
                   on_selected_domain selected_domains (url r) /\
                   netloc (url r) = Returned (domain r)) out.
Proof.
  intros H. apply run_returned in H as (links & Hc & ->).
  apply collect_from_empty in Hc as (Hlen & Hnd & Hdom).
  destruct (visit_all_rows L S netloc B progress links kw 1 (length links)
              empty_world) as (added & -> & Hl & Hn & Hf).
  cbn [rows empty_world app]. repeat split.
  - lia.
  - auto.
  - eapply Forall_impl; [|exact Hf]. cbn. intros r (Hin & Hk & Hnet).
    rewrite Forall_forall in Hdom. auto.
Qed.

Lemma run_records_bounded_witness :
  (Z.of_nat (length demo_rows) <= Z.max 0 10)%Z /\
  NoDup (map url demo_rows) /\
  Forall (fun r => keyword r = txt "dental lab" /\
                   on_selected_domain [txt "linkedin.com"] (url r) /\
                   simple_netloc (url r) = Returned (domain r)) demo_rows.
Proof.
  apply (run_records_bounded mobile_plan ordered_set simple_netloc demo_browser
           (Some quiet_observer) 3 (txt "dental lab") [txt "linkedin.com"] 10
           demo_rows
           {| rows := demo_rows;
              log := [PageOpened 1; Printed link_a; PageOpened 2; PageClosed 2;
                      Reported (2 # 2)] |}).
  vm_compute. reflexivity.
Defined.

(** X9. An exception outside [Exception] (an interrupt, a cancellation) raised
    by the navigation to a link is not absorbed: the loop stops there and
    raises it, the remaining links are not visited, no row is added and the
    page just opened is not closed. *)
Theorem interrupt_aborts_the_loop
    (L : PhoneLib) (S : PySet) (netloc : text -> outcome text) (B : browser)
    (progress : option (Q -> outcome unit)) (kw : text) (i : nat) (link : text)
    (rest : list text) (total : nat) (w : world) (e : exn) :
  v_new_page (visits B i link) = Returned tt ->
  v_goto (visits B i link) = Raised e ->
  is_Exception e = false ->
  visit_all L S netloc B progress kw i (link :: rest) total w =
    (Raised e, {| rows := rows w; log := log w ++ [PageOpened i] |}).
Proof.
  intros Hnew Hgoto He. cbn [visit_all].
  unfold bind at 1.
  unfold try_except_Exception, visit_link, bind, call, emit.
  rewrite Hnew. cbn. rewrite Hgoto. cbn. rewrite He. reflexivity.
Qed.

Lemma interrupt_aborts_the_loop_witness :
  visit_all mobile_plan ordered_set simple_netloc interrupted_browser None
    (txt "dental lab") 1 [link_a; link_b] 2 empty_world =
  (Raised (BaseException "KeyboardInterrupt"),
   {| rows := rows empty_world; log := log empty_world ++ [PageOpened 1] |}).
Proof.
  apply (interrupt_aborts_the_loop mobile_plan ordered_set simple_netloc
           interrupted_browser None (txt "dental lab") 1 link_a [link_b] 2
           empty_world (BaseException "KeyboardInterrupt"));
    reflexivity.
Defined.

(** X10. When the calls raise errors only, the pages still open when the loop
    over the links ends are exactly those of the links whose page was opened
    and whose navigation, settle wait, content capture or close then raised;
    the page of every other link was closed in its turn. *)
Theorem pages_left_open_are_the_failed_visits
    (L : PhoneLib) (S : PySet) (netloc : text -> outcome text) (B : browser)
    (progress : option (Q -> outcome unit)) (kw : text)
    (links : list text) (total : nat) :
  errors_only netloc B progress ->
  exists w',
    visit_all L S netloc B progress kw 1 links total empty_world = (Returned tt, w') /\
    still_open (log w') [] =
      map fst (filter (fun p => leaks B (fst p) (snd p)) (enumerate 1 links)).
Proof.
  intros Herr.
  destruct (visit_all_effect L S netloc B progress Herr links kw 1 total empty_world)
    as (w' & E & _).
  exists w'. split; [assumption|].
  pose proof (visit_all_pages L S netloc B progress Herr links kw 1 total
                empty_world [] (Forall_nil _)) as H.
  rewrite E in H. exact H.
Qed.

Lemma pages_left_open_are_the_failed_visits_witness :
  exists w',
    visit_all mobile_plan ordered_set simple_netloc demo_browser None
      (txt "dental lab") 1 [link_a; link_b] 2 empty_world = (Returned tt, w') /\
    still_open (log w') [] =
      map fst (filter (fun p => leaks demo_browser (fst p) (snd p))
                      (enumerate 1 [link_a; link_b])).
Proof.
  apply (pages_left_open_are_the_failed_visits mobile_plan ordered_set
           simple_netloc demo_browser None (txt "dental lab") [link_a; link_b] 2).
  apply demo_errors_only. intros observer q H. discriminate H.
Defined.

(** X11. A failure before the links are visited is fatal: when the launch,
    the first page, the navigation to the search or the capture of its markup
    raises, or when a call of the link collector raises, the run raises the
    same exception, with no row and no page visited. *)
Theorem failure_before_visits_is_fatal
    (L : PhoneLib) (S : PySet) (netloc : text -> outcome text) (B : browser)
    (progress : option (Q -> outcome unit)) (fuel : nat) (kw : text)
    (selected_domains : list text) (max_results : Z) (e : exn) :
  start_raises B (search_url kw selected_domains) e \/
  (launch B = Returned tt /\ search_new_page B = Returned tt /\
   search_goto B (search_url kw selected_domains) = Returned tt /\
   (exists html, search_content B = Returned html) /\
   collect_links selected_domains max_results fuel (results B) 0 []
     = Some (Raised e)) ->
  scrape_social_media_async L S netloc B progress fuel kw selected_domains max_results
    = Some (Raised e, empty_world).
Proof.
  unfold start_raises, search_url, scrape_social_media_async, bind, call, ret.
  fold empty_world.
  intros [[H|(-> & [H|(-> & [H|(-> & H)])])]|(-> & -> & -> & (html & ->) & H)];
    cbv beta iota zeta; rewrite ?H; cbv beta iota zeta; try reflexivity.
  rewrite handle_consent_returns. reflexivity.
Qed.

Lemma failure_before_visits_is_fatal_witness :
  scrape_social_media_async mobile_plan ordered_set simple_netloc unlaunched_browser
    None 3 (txt "dental lab") [txt "linkedin.com"] 10
    = Some (Raised (Exception "Error"), empty_world).
Proof.
  apply (failure_before_visits_is_fatal mobile_plan ordered_set simple_netloc
           unlaunched_browser None 3 (txt "dental lab") [txt "linkedin.com"] 10
           (Exception "Error")).
  left. left. reflexivity.
Defined.

(** ** The search address *)

Lemma replace_spaces_app a b :
  replace_spaces (a ++ b) = replace_spaces a ++ replace_spaces b.
Proof. apply map_app. Qed.

Lemma replace_spaces_clean s : no_space s -> replace_spaces s = s.
Proof.
  induction 1 as [|c s Hc _ IH]; [reflexivity|]. cbn.
  fold (replace_spaces s). rewrite IH.
  destruct (Ascii.eqb c " ") eqn:E; [|reflexivity].
  apply Ascii.eqb_eq in E. contradiction.
Qed.

Lemma replace_spaces_no_space s : no_space (replace_spaces s).
Proof.
  induction s as [|c s IH]; [constructor|]. cbn. constructor; [|exact IH].
  destruct (Ascii.eqb c " ") eqn:E; [discriminate|].
  intros ->. now rewrite Ascii.eqb_refl in E.
Qed.

Lemma replace_spaces_infix s x :
  (exists a b, s = a ++ x ++ b) ->
  exists a b, replace_spaces s = a ++ replace_spaces x ++ b.
Proof.
  intros (a & b & ->). exists (replace_spaces a), (replace_spaces b).
  now rewrite !replace_spaces_app.
Qed.

(** X13. The address of the search has no space in it. It carries the keyword
    in double quotes with [+] for each of its spaces, and the [site:] term of
    every selected domain that has no space; nothing else of the query is
    rewritten, so the address is 32 characters longer than the query. *)
Theorem search_url_shape (kw : text) (selected_domains : list text) :
  no_space (search_url kw selected_domains) /\
  length (search_url kw selected_domains) =
    32 + length (build_query kw selected_domains) /\
  (exists a b, search_url kw selected_domains =
                 a ++ (dq ++ replace_spaces kw ++ dq) ++ b) /\
  (forall d, In d selected_domains -> no_space d ->
     exists a b, search_url kw selected_domains = a ++ (txt "site:" ++ d) ++ b).
Proof.
  unfold search_url. repeat split.
  - apply Forall_app. split; [|apply replace_spaces_no_space].
    cbn. repeat constructor; discriminate.
  - rewrite length_app. unfold replace_spaces. now rewrite length_map.
  - destruct (build_query_shape kw selected_domains) as (Hkw & _).
    apply replace_spaces_infix in Hkw.
    rewrite !replace_spaces_app in Hkw. apply infix_later. exact Hkw.
  - intros d Hd Hclean.
    destruct (build_query_shape kw selected_domains) as (_ & Hsite).
    specialize (Hsite d Hd). apply replace_spaces_infix in Hsite.
    rewrite replace_spaces_app, (replace_spaces_clean d Hclean) in Hsite.
    apply infix_later. exact Hsite.
Qed.

(** ** Numbers written behind 91 *)

Lemma digit_clash x s :
  is_digit x = true -> In x s -> no_digit s -> False.
Proof.
  intros Hx Hin Hs. unfold no_digit in Hs. rewrite Forall_forall in Hs.
  apply Hs in Hin. congruence.
Qed.

Lemma digit_run_tail (R post l D b : text) :
  R ++ post = l ++ D ++ b ->
  no_digit post ->
  Forall (fun c => is_digit c = true) R -> Forall (fun c => is_digit c = true) D ->
  D <> [] -> word_opt (hd_error b) = false ->
  R = l ++ D /\ b = post.
Proof.
  intros E Hpost HR HD Hne Hb.
  destruct D as [|d D]; [congruence|]. clear Hne.
  assert (Hd : is_digit d = true) by (inversion HD; assumption).
  apply app_eq_app in E as (m & [(Em & E)|(Em & E)]).
  - symmetry in E. apply app_eq_app in E as (k & [(Ek & E)|(Ek & E)]).
    + destruct k as [|x k].
      * rewrite app_nil_r in Ek. cbn in E. subst. auto.
      * exfalso. subst b. cbn in Hb.
        assert (Hx : is_digit x = true).
        { rewrite Forall_forall in HR. apply HR. rewrite Em, Ek.
          apply in_or_app. right. apply in_or_app. right. simpl. auto. }
        apply digit_is_word in Hx. congruence.
    + destruct k as [|x k].
      * rewrite app_nil_r in Ek. cbn in E. subst. auto.
      * exfalso. apply (digit_clash x post); [|subst post; simpl; auto|assumption].
        rewrite Forall_forall in HD. apply HD. rewrite Ek.
        apply in_or_app. right. simpl. auto.
  - exfalso. apply (digit_clash d post); [assumption| |assumption].
    rewrite E. apply in_or_app. right. simpl. auto.
Qed.

(** A run of digits followed by a non-word position, in a text whose digits
    are those of [R] alone, is the end of [R]. *)
Lemma digit_run_aligned (pre R post X D b : text) :
  pre ++ R ++ post = X ++ D ++ b ->
  no_digit pre -> no_digit post ->
  Forall (fun c => is_digit c = true) R -> Forall (fun c => is_digit c = true) D ->
  D <> [] -> word_opt (hd_error b) = false ->
  exists l, R = l ++ D /\ X = pre ++ l /\ b = post.
Proof.
  intros E Hpre Hpost HR HD Hne Hb.
  apply app_eq_app in E as (l & [(El & E)|(El & E)]).
  - destruct l as [|x l].
    + rewrite app_nil_r in El. cbn in E. symmetry in E.
      apply (digit_run_tail R post [] D b) in E as (-> & ->); auto.
      exists []. rewrite app_nil_r. auto.
    + exfalso. destruct D as [|d D]; [congruence|].
      injection E as -> E.
      apply (digit_clash x pre); [now inversion HD| |assumption].
      rewrite El. apply in_or_app. right. simpl. auto.
  - apply (digit_run_tail R post l D b) in E as (-> & ->); auto.
    exists l. auto.
Qed.

(** Behind [91], with no matchable [+] before it, a number is not found. *)
Lemma no_match_behind_91 (pre n post : text) :
  mobile10 n -> no_digit pre -> no_digit post ->
  no_matchable_plus pre -> word_opt (hd_error post) = false ->
  findall PHONE_RE (pre ++ txt "91" ++ n ++ post) = [].
Proof.
  intros Hn Hpre Hpost Hplus Hend.
  destruct (findall PHONE_RE (pre ++ txt "91" ++ n ++ post)) as [|w ws] eqn:F;
    [reflexivity|exfalso].
  assert (Hw : In w (findall PHONE_RE (pre ++ txt "91" ++ n ++ post)))
    by (rewrite F; simpl; auto).
  apply findall_occurs in Hw as (a & b & E & L).
  apply phone_lang in L as ((P & d & ds & -> & HP & Hd & Hds & Hlen) & Hstart & Hb).
  assert (HD : Forall (fun c => is_digit c = true) (d :: ds))
    by (constructor; [now apply is_6_9_digit|assumption]).
  rewrite last_char_app in Hb. unfold at_boundary in Hb.
  rewrite (last_char_digits _ d ds HD) in Hb.
  assert (Hb' : word_opt (hd_error b) = false)
    by (now destruct (word_opt (hd_error b))).
  assert (E' : pre ++ (txt "91" ++ n) ++ post = (a ++ P) ++ (d :: ds) ++ b)
    by (rewrite <- !app_assoc in *; exact E).
  apply digit_run_aligned in E' as (l & ER & EX & ->); auto.
  2:{ apply Forall_app. split; [repeat constructor|now apply mobile10_digits]. }
  2:{ discriminate. }
  assert (El : l = txt "91" /\ n = d :: ds).
  { symmetry in ER. apply app_same_length_r in ER as (-> & <-); [auto|].
    rewrite (mobile10_length n Hn). simpl. now rewrite Hlen. }
  destruct El as (-> & ->).
  unfold at_boundary in Hstart.
  destruct HP as [->|[->|(c & Hc & ->)]].
  - rewrite app_nil_r in EX. subst a. cbn [app hd_error] in Hstart.
    rewrite last_char_app in Hstart. cbn in Hstart.
    rewrite (digit_is_word d (is_6_9_digit d Hd)) in Hstart. discriminate.
  - assert (Ea : pre = a ++ ["+"%char]).
    { change (txt "+91") with (["+"%char] ++ txt "91") in EX.
      rewrite app_assoc in EX. apply app_inv_tail in EX. now symmetry. }
    rewrite (Hplus a Ea) in Hstart. discriminate.
  - change (txt "+91" ++ [c]) with (txt "+9" ++ ["1"%char; c]) in EX.
    change (txt "91") with (["9"%char] ++ ["1"%char]) in EX.
    rewrite !app_assoc in EX.
    change (((a ++ txt "+9") ++ ["1"%char; c])) with
      ((a ++ txt "+9") ++ ["1"%char] ++ [c]) in EX.
    rewrite app_assoc in EX.
    apply app_inj_tail in EX as (_ & Ec). subst c. discriminate Hc.
Qed.

(** X15. A number written behind [91] is extracted only when a [+] stands
    before the 91 and a word character before that [+]: when the markup has no
    other digits, the number ends at a non-word position and no such [+]
    precedes it (so for "+91..." at the start of the markup or after a space,
    and for a bare "91..."), the phone output is empty. *)
Theorem number_behind_91_not_extracted
    (L : PhoneLib) (S : PySet) (pre n post : text) :
  mobile10 n -> no_digit pre -> no_digit post ->
  no_matchable_plus pre -> word_opt (hd_error post) = false ->
  exists es,
    extract_contacts_from_html L S (pre ++ txt "91" ++ n ++ post) = Returned (es, []).
Proof.
  intros Hn Hpre Hpost Hplus Hend.
  unfold extract_contacts_from_html.
  rewrite (no_match_behind_91 pre n post Hn Hpre Hpost Hplus Hend).
  assert (E : set_iter S [] = []).
  { destruct (set_iter S []) as [|x xs] eqn:X; [reflexivity|].
    exfalso. apply (set_iter_In S [] x). rewrite X. simpl. auto. }
  rewrite E. cbn. eauto.
Qed.

Lemma number_behind_91_not_extracted_witness :
  exists es,
    extract_contacts_from_html mobile_plan ordered_set
      (txt "Call: +" ++ txt "91" ++ txt "9876543210" ++ txt " (office)")
    = Returned (es, []).
Proof.
  apply (number_behind_91_not_extracted mobile_plan ordered_set
           (txt "Call: +") (txt "9876543210") (txt " (office)")).
  - exists "9"%char, (txt "876543210"). repeat split. repeat constructor.
  - repeat constructor.
  - repeat constructor.
  - intros a Ha.
    assert (a = txt "Call: ") as ->.
    { change (txt "Call: +") with (txt "Call: " ++ ["+"%char]) in Ha.
      apply app_inj_tail in Ha as (<- & _). reflexivity. }
    reflexivity.
  - reflexivity.
Defined.
